(** * Needleman-Wunsch global alignment ([main.py]): model and properties

    A shallow embedding of [PopulateMatrix], [ScoringMatrix] and
    [BackTracking].  Python integers are unbounded, hence [Z]; a [str] is a
    list of characters; the NumPy object array is its shape together with
    its row-major buffer; exceptions are the [Raise] branch of [result]. *)

From Stdlib Require Import ZArith Ascii String DecimalString DecimalZ.
From stdpp Require Import base tactics option list.

Local Open Scope Z_scope.

(** ** Python values *)

Module Py.

(** The exceptions the modelled code can raise.  [FuelExhausted] is not a
    Python exception: it marks a [while] loop cut off by the bound of the
    model (see [while_loop]). *)
Inductive exn : Set :=
| TypeError
| IndexError
| FuelExhausted.

Inductive result (A : Type) : Type :=
| Ok (a : A)
| Raise (e : exn).
Arguments Ok {A} a.
Arguments Raise {A} e.

Definition bind {A B : Type} (r : result A) (k : A -> result B) : result B :=
  match r with
  | Ok a => k a
  | Raise e => Raise e
  end.

(** What a cell of an object array holds here: [None] or an [int]. *)
Inductive pyobj : Set :=
| PyNone
| PyInt (z : Z).

(** A [str]; indexing it gives a character. *)
Definition pystr : Set := list ascii.

(** [x + k] for an object [x] and an [int] [k]. *)
Definition add_int (x : pyobj) (k : Z) : result Z :=
  match x with
  | PyInt z => Ok (z + k)
  | PyNone => Raise TypeError
  end.

(** [max(a, b, c)] on integers. *)
Definition max3 (a b c : Z) : Z := Z.max (Z.max a b) c.

(** Index normalisation shared by [str] and NumPy indexing: a negative
    index counts from the end, anything outside [-n, n) is an error. *)
Definition norm_index (n : nat) (i : Z) : result nat :=
  let k := if i <? 0 then i + Z.of_nat n else i in
  if (0 <=? k) && (k <? Z.of_nat n) then Ok (Z.to_nat k) else Raise IndexError.

(** [s[i]] *)
Definition str_getitem (s : pystr) (i : Z) : result ascii :=
  bind (norm_index (length s) i) (fun k =>
  match s !! k with
  | Some c => Ok c
  | None => Raise IndexError
  end).

(** [str(z)] for an [int]: decimal digits, a leading minus when negative. *)
Definition str_of_int (z : Z) : pystr :=
  list_ascii_of_string (NilZero.string_of_int (Z.to_int z)).

(** [str(x)] as the f-string applies it. *)
Definition str_of_obj (x : pyobj) : pystr :=
  match x with
  | PyNone => list_ascii_of_string "None"
  | PyInt z => str_of_int z
  end.

(** [range(n)] *)
Definition range (n : Z) : list Z := map Z.of_nat (seq 0 (Z.to_nat n)).

(** [for x in xs: body], threading the state and stopping at an exception. *)
Fixpoint for_each {St : Type} (xs : list Z) (body : Z -> St -> result St)
    (s : St) : result St :=
  match xs with
  | [] => Ok s
  | x :: xs' => bind (body x s) (for_each xs' body)
  end.

(** [while cond: body].  The condition is tested first; [fuel] bounds the
    number of iterations. *)
Fixpoint while_loop {St : Type} (fuel : nat) (cond : St -> bool)
    (body : St -> result St) (s : St) : result St :=
  if cond s then
    match fuel with
    | O => Raise FuelExhausted
    | S fuel' => bind (body s) (while_loop fuel' cond body)
    end
  else Ok s.

End Py.
Import Py.

Notation "'do' x <- e ; k" := (bind e (fun x => k))
  (at level 10, x name, e at level 100, k at level 200).

(** ** The NumPy array *)

(** A two-dimensional object array: its [shape] and its buffer in row-major
    order, as [np.full((r, c), v)] lays it out. *)
Record ndarray : Set := mk_ndarray {
  shape0 : nat;
  shape1 : nat;
  buffer : list pyobj
}.

Definition np_full (r c : nat) (v : pyobj) : ndarray :=
  mk_ndarray r c (replicate (r * c) v).

(** [m[i, j]] *)
Definition getitem (m : ndarray) (i j : Z) : result pyobj :=
  do r <- norm_index (shape0 m) i ;
  do c <- norm_index (shape1 m) j ;
  match buffer m !! (r * shape1 m + c)%nat with
  | Some v => Ok v
  | None => Raise IndexError
  end.

(** [m[i, j] = v] *)
Definition setitem (m : ndarray) (i j : Z) (v : pyobj) : result ndarray :=
  do r <- norm_index (shape0 m) i ;
  do c <- norm_index (shape1 m) j ;
  Ok (mk_ndarray (shape0 m) (shape1 m)
        (<[(r * shape1 m + c)%nat := v]> (buffer m))).

(** A buffer of the size the shape announces; every array NumPy builds is
    such. *)
Definition well_formed (m : ndarray) : Prop :=
  length (buffer m) = (shape0 m * shape1 m)%nat.

(** ** The program *)

Definition gap_penalty : Z := -2.

Definition ScoringMatrix (current_row current_column : Z) (seq1 seq2 : pystr)
  : result Z :=
  do SeqLetterOne <- str_getitem seq1 (current_row - 1) ;
  do SeqLetterTwo <- str_getitem seq2 (current_column - 1) ;
  if Ascii.eqb SeqLetterOne SeqLetterTwo then Ok 1 else Ok (-1).

(** The body of the two nested [for] loops of [PopulateMatrix]. *)
Definition populate_cell (seq1 seq2 : pystr) (row column : Z) (matrix : ndarray)
  : result ndarray :=
  if (row =? 0) && (column =? 0) then
    setitem matrix row column (PyInt 0)
  else if row =? 0 then
    do left <- getitem matrix row (column - 1) ;
    do v <- add_int left gap_penalty ;
    setitem matrix row column (PyInt v)
  else if column =? 0 then
    do up <- getitem matrix (row - 1) column ;
    do v <- add_int up gap_penalty ;
    setitem matrix row column (PyInt v)
  else
    do diag <- getitem matrix (row - 1) (column - 1) ;
    do score <- ScoringMatrix row column seq1 seq2 ;
    do match_mismatch <- add_int diag score ;
    do up <- getitem matrix (row - 1) column ;
    do delete <- add_int up gap_penalty ;
    do left <- getitem matrix row (column - 1) ;
    do insert <- add_int left gap_penalty ;
    setitem matrix row column (PyInt (max3 match_mismatch delete insert)).

(** The population loops of [PopulateMatrix], up to the call of
    [BackTracking]. *)
Definition populate (seq_rows seq_columns : Z) (seq1 seq2 : pystr)
    (matx : ndarray) : result ndarray :=
  for_each (range seq_rows)
    (fun row => for_each (range seq_columns) (populate_cell seq1 seq2 row))
    matx.

(** The variables of [BackTracking] that its loops change. *)
Record bt_state : Set := mk_bt {
  row_index : Z;
  column_index : Z;
  seq_one_final : pystr;
  seq_two_final : pystr
}.

Definition gap_marker : ascii := "-"%char.

(** The three scores recomputed at the head of each iteration of the main
    loop: diagonal, upper and side. *)
Definition candidate_scores (matrix : ndarray) (seq_one seq_two : pystr)
    (st : bt_state) : result (Z * Z * Z) :=
  do diag <- getitem matrix (row_index st - 1) (column_index st - 1) ;
  do score <- ScoringMatrix (row_index st) (column_index st) seq_one seq_two ;
  do diagonal_score <- add_int diag score ;
  do up <- getitem matrix (row_index st - 1) (column_index st) ;
  do upper_score <- add_int up (-2) ;
  do left <- getitem matrix (row_index st) (column_index st - 1) ;
  do side_score <- add_int left (-2) ;
  Ok (diagonal_score, upper_score, side_score).

(** The three branches of the main loop. *)
Definition move_diagonal (seq_one seq_two : pystr) (st : bt_state)
  : result bt_state :=
  do a <- str_getitem seq_one (row_index st - 1) ;
  do b <- str_getitem seq_two (column_index st - 1) ;
  Ok (mk_bt (row_index st - 1) (column_index st - 1)
        (a :: seq_one_final st) (b :: seq_two_final st)).

Definition move_up (seq_one : pystr) (st : bt_state) : result bt_state :=
  do a <- str_getitem seq_one (row_index st - 1) ;
  Ok (mk_bt (row_index st - 1) (column_index st)
        (a :: seq_one_final st) (gap_marker :: seq_two_final st)).

Definition move_left (seq_two : pystr) (st : bt_state) : result bt_state :=
  do b <- str_getitem seq_two (column_index st - 1) ;
  Ok (mk_bt (row_index st) (column_index st - 1)
        (gap_marker :: seq_one_final st) (b :: seq_two_final st)).

Definition walk_cond (st : bt_state) : bool :=
  (row_index st >? 0) && (column_index st >? 0).

(** The body of [while row_index > 0 and column_index > 0]. *)
Definition walk_body (matrix : ndarray) (seq_one seq_two : pystr)
    (st : bt_state) : result bt_state :=
  do scores <- candidate_scores matrix seq_one seq_two st ;
  let '(diagonal_score, upper_score, side_score) := scores in
  if (diagonal_score >? upper_score) && (diagonal_score >? side_score) then
    move_diagonal seq_one seq_two st
  else if upper_score >? side_score then
    move_up seq_one st
  else
    move_left seq_two st.

(** The two clean-up loops; their bodies are the up and the left move. *)
Definition rows_left (st : bt_state) : bool := negb (row_index st =? 0).
Definition columns_left (st : bt_state) : bool := negb (column_index st =? 0).

(** Iteration bounds for the three loops.  The main loop lowers
    [row_index + column_index] at each turn; a clean-up loop either counts
    a positive index down to 0 or, from a negative index, walks off the
    front of the string and raises. *)
Definition walk_fuel (st : bt_state) : nat :=
  Z.to_nat (row_index st + column_index st).
Definition drain_fuel (seq : pystr) (index : Z) : nat :=
  (Z.to_nat (Z.abs index) + S (length seq))%nat.

(** [BackTracking] up to its last two lines: the aligned sequences. *)
Definition BackTracking_alignment (matx : ndarray) (sequence1 sequence2 : pystr)
  : result (pystr * pystr) :=
  let st0 := mk_bt (Z.of_nat (shape0 matx) - 1) (Z.of_nat (shape1 matx) - 1)
               [] [] in
  do st1 <- while_loop (walk_fuel st0) walk_cond
              (walk_body matx sequence1 sequence2) st0 ;
  do st2 <- (if column_index st1 =? 0 then
               while_loop (drain_fuel sequence1 (row_index st1)) rows_left
                 (move_up sequence1) st1
             else if row_index st1 =? 0 then
               while_loop (drain_fuel sequence2 (column_index st1)) columns_left
                 (move_left sequence2) st1
             else Ok st1) ;
  Ok (seq_one_final st2, seq_two_final st2).

(** [f'{seq_one_final} {seq_two_final} {score}'] *)
Definition render (seq_one_final seq_two_final : pystr) (score : pyobj)
  : pystr :=
  seq_one_final ++ " "%char :: seq_two_final ++ " "%char :: str_of_obj score.

(** The value returned (and printed) by [BackTracking]. *)
Definition BackTracking (matx : ndarray) (sequence1 sequence2 : pystr)
  : result pystr :=
  do aligned <- BackTracking_alignment matx sequence1 sequence2 ;
  do score <- getitem matx (-1) (-1) ;
  Ok (render (fst aligned) (snd aligned) score).

Definition PopulateMatrix (seq_rows seq_columns : Z) (sequence1 sequence2 : pystr)
    (matx : ndarray) : result pystr :=
  do matrix <- populate seq_rows seq_columns sequence1 sequence2 matx ;
  BackTracking matrix sequence1 sequence2.

(** What [ParserFile] does with one row of the CSV file. *)
Definition ParserFile_row (seq_one seq_two : pystr) : result pystr :=
  let one_size := S (length seq_one) in
  let two_size := S (length seq_two) in
  let matrix := np_full one_size two_size PyNone in
  PopulateMatrix (Z.of_nat one_size) (Z.of_nat two_size) seq_one seq_two matrix.

(** ** The recurrence, as a function of the two prefix lengths *)

Definition pair_score (a b : ascii) : Z := if Ascii.eqb a b then 1 else -1.

(** The [i]-th symbol of a sequence, counted from 1 as the matrix does. *)
Definition symbol (seq : pystr) (i : nat) : ascii :=
  nth (i - 1) seq "000"%char.

(** The score of aligning the first [i] symbols of [seq1] with the first
    [j] symbols of [seq2]. *)
Fixpoint nw (seq1 seq2 : pystr) (i : nat) : nat -> Z :=
  match i with
  | O => fun j => gap_penalty * Z.of_nat j
  | S i' =>
      fix row (j : nat) : Z :=
        match j with
        | O => gap_penalty * Z.of_nat (S i')
        | S j' =>
            max3 (nw seq1 seq2 i' j'
                  + pair_score (symbol seq1 (S i')) (symbol seq2 (S j')))
                 (nw seq1 seq2 i' (S j') + gap_penalty)
                 (row j' + gap_penalty)
        end
  end.

(** The precondition of [PopulateMatrix] and [BackTracking]: the matrix has
    one row more than [seq1] has symbols and one column more than [seq2]. *)
Definition matching_dims (matx : ndarray) (seq1 seq2 : pystr) : Prop :=
  shape0 matx = S (length seq1) /\ shape1 matx = S (length seq2)
  /\ well_formed matx.

(** The cells before [(r, c)] in row-major order hold the recurrence. *)
Definition filled_upto (seq1 seq2 : pystr) (r c : nat) (m : ndarray) : Prop :=
  matching_dims m seq1 seq2 /\
  forall i j : nat, (j <= length seq2)%nat -> (i < r \/ i = r /\ j < c)%nat ->
    buffer m !! (i * S (length seq2) + j)%nat = Some (PyInt (nw seq1 seq2 i j)).

(** What [populate] leaves behind: matching dimensions and the recurrence
    in every cell. *)
Definition populated (seq1 seq2 : pystr) (m : ndarray) : Prop :=
  matching_dims m seq1 seq2 /\
  forall i j : nat, (i <= length seq1)%nat -> (j <= length seq2)%nat ->
    getitem m (Z.of_nat i) (Z.of_nat j) = Ok (PyInt (nw seq1 seq2 i j)).

(** ** Aligned outputs *)

(** [gapped seq out]: [out] is [seq] with gap markers put in, every symbol
    of [seq] once and in order. *)
Inductive gapped : pystr -> pystr -> Prop :=
| gapped_nil : gapped [] []
| gapped_symbol (a : ascii) (seq out : pystr) :
    gapped seq out -> gapped (a :: seq) (a :: out)
| gapped_gap (seq out : pystr) :
    gapped seq out -> gapped seq (gap_marker :: out).

(** Deleting every ['-']. *)
Definition strip_gaps (out : pystr) : pystr :=
  List.filter (fun c => negb (Ascii.eqb c gap_marker)) out.

(** The state of the loops of [BackTracking] on a populated matrix: the
    indices are prefix lengths and the accumulators spell the two suffixes
    still to the right of them. *)
Definition bt_invariant (seq1 seq2 : pystr) (st : bt_state) : Prop :=
  exists i j : nat,
    row_index st = Z.of_nat i /\ column_index st = Z.of_nat j /\
    (i <= length seq1)%nat /\ (j <= length seq2)%nat /\
    length (seq_one_final st) = length (seq_two_final st) /\
    gapped (drop i seq1) (seq_one_final st) /\
    gapped (drop j seq2) (seq_two_final st).

(** Reading a decimal numeral back, to say what [str_of_int] prints. *)
Definition int_of_str (t : pystr) : option Z :=
  option_map Z.of_int (NilZero.int_of_string (string_of_list_ascii t)).

(** A computation that does not end on the bound of the model. *)
Definition within_fuel {A : Type} (r : result A) : Prop :=
  r <> Raise FuelExhausted.

(** ** Alignments as lists of columns *)

(** A column of an alignment: a symbol of each sequence, a symbol of the
    first against a gap, or a gap against a symbol of the second.  These
    are the diagonal, the up and the left move of [BackTracking]. *)
Inductive column : Set :=
| Pair (a b : ascii)
| Del (a : ascii)
| Ins (b : ascii).

(** The two rows an alignment prints as. *)
Definition first_row (cols : list column) : pystr :=
  map (fun c => match c with Pair a _ | Del a => a | Ins _ => gap_marker end)
    cols.
Definition second_row (cols : list column) : pystr :=
  map (fun c => match c with Pair _ b | Ins b => b | Del _ => gap_marker end)
    cols.

(** The symbols of each sequence an alignment uses up. *)
Definition first_symbols (cols : list column) : pystr :=
  flat_map (fun c => match c with Pair a _ | Del a => [a] | Ins _ => [] end)
    cols.
Definition second_symbols (cols : list column) : pystr :=
  flat_map (fun c => match c with Pair _ b | Ins b => [b] | Del _ => [] end)
    cols.

(** The score of an alignment under the scheme of the program: [pair_score]
    for a pair of symbols, [gap_penalty] for a symbol against a gap. *)
Definition column_score (c : column) : Z :=
  match c with
  | Pair a b => pair_score a b
  | Del _ | Ins _ => gap_penalty
  end.
Definition alignment_score (cols : list column) : Z :=
  fold_right (fun c acc => column_score c + acc) 0 cols.

(** The invariant of the loops of [BackTracking] on a populated matrix that
    keeps the columns emitted so far: they spell the accumulators, use up
    the two suffixes, and their score added to the cell under the indices
    is the score of the final cell. *)
Definition traced_invariant (seq1 seq2 : pystr) (st : bt_state) : Prop :=
  exists (i j : nat) (cols : list column),
    row_index st = Z.of_nat i /\ column_index st = Z.of_nat j /\
    (i <= length seq1)%nat /\ (j <= length seq2)%nat /\
    seq_one_final st = first_row cols /\
    seq_two_final st = second_row cols /\
    first_symbols cols = drop i seq1 /\
    second_symbols cols = drop j seq2 /\
    nw seq1 seq2 i j + alignment_score cols
      = nw seq1 seq2 (length seq1) (length seq2).

(** [filled_upto] for a matrix of any shape [(R0, C0)]: the cells before
    [(r, c)] that lie in the matrix and in the columns of [seq2] hold the
    recurrence. *)
Definition block_filled (seq1 seq2 : pystr) (R0 C0 r c : nat) (m : ndarray)
  : Prop :=
  shape0 m = R0 /\ shape1 m = C0 /\ well_formed m /\
  forall i j : nat, (i < R0)%nat -> (j < C0)%nat -> (j <= length seq2)%nat ->
    (i < r \/ i = r /\ j < c)%nat ->
    buffer m !! (i * C0 + j)%nat = Some (PyInt (nw seq1 seq2 i j)).

(** ** The loop of [ParserFile] *)

(** [l[i]] for a list, as [row[0]] and [row[1]]. *)
Definition list_getitem {A : Type} (l : list A) (i : Z) : result A :=
  do k <- norm_index (length l) i ;
  match l !! k with
  | Some x => Ok x
  | None => Raise IndexError
  end.

(** A line on standard output: a result, or the report
    ["An error occurred: ..."] of the [except] clause for an exception. *)
Inductive stdout_line : Set :=
| Printed (text : pystr)
| ErrorReport (e : exn).

(** The body of the [for] loop of [ParserFile] on one row of the reader,
    up to its [print]. *)
Definition ParserFile_body (row : list pystr) : result pystr :=
  do seq_one <- list_getitem row 0 ;
  do seq_two <- list_getitem row 1 ;
  ParserFile_row seq_one seq_two.

(** What the [try] block of [ParserFile] writes for the rows the csv reader
    yields.  A row that goes through is printed twice, by [BackTracking]
    before it returns and by the loop; an exception leaves the loop and is
    reported once. *)
Fixpoint ParserFile_rows (rows : list (list pystr)) : list stdout_line :=
  match rows with
  | [] => []
  | row :: rows' =>
      match ParserFile_body row with
      | Ok result => Printed result :: Printed result :: ParserFile_rows rows'
      | Raise e => [ErrorReport e]
      end
  end.

(** ** Loops and indexing: general facts *)

Lemma bind_Ok_inv {A B : Type} (r : result A) (k : A -> result B) (b : B) :
  bind r k = Ok b -> exists a, r = Ok a /\ k a = Ok b.
Proof. destruct r as [a|e]; simpl; [eauto | discriminate]. Qed.

Lemma norm_index_nat (n k : nat) :
  (k < n)%nat -> norm_index n (Z.of_nat k) = Ok k.
Proof.
  intros Hk. unfold norm_index.
  destruct (Z.ltb_spec (Z.of_nat k) 0) as [Hneg|_]; [lia|].
  destruct (Z.leb_spec 0 (Z.of_nat k)); [|lia].
  destruct (Z.ltb_spec (Z.of_nat k) (Z.of_nat n)); [|lia].
  simpl. by rewrite Nat2Z.id.
Qed.

Lemma norm_index_pred (n : nat) (i : Z) :
  0 < i <= Z.of_nat n -> norm_index n (i - 1) = Ok (Z.to_nat i - 1)%nat.
Proof.
  intros Hi. replace (i - 1) with (Z.of_nat (Z.to_nat i - 1)) by lia.
  apply norm_index_nat. lia.
Qed.

Lemma norm_index_last (n : nat) : norm_index (S n) (-1) = Ok n.
Proof.
  unfold norm_index. change (-1 <? 0) with true. cbv iota.
  destruct (Z.leb_spec 0 (-1 + Z.of_nat (S n))); [|lia].
  destruct (Z.ltb_spec (-1 + Z.of_nat (S n)) (Z.of_nat (S n))); [|lia].
  simpl andb. cbv iota. f_equal. lia.
Qed.

Lemma norm_index_Ok (n : nat) (i : Z) (k : nat) :
  norm_index n i = Ok k -> (k < n)%nat.
Proof.
  unfold norm_index.
  destruct (i <? 0); (destruct (_ && _) eqn:Hb; [|discriminate]);
    intros [= <-]; apply andb_prop in Hb as [Ha%Z.leb_le Hb%Z.ltb_lt]; lia.
Qed.

Lemma str_getitem_nat (seq : pystr) (k : nat) (c : ascii) :
  seq !! k = Some c -> str_getitem seq (Z.of_nat k) = Ok c.
Proof.
  intros Hk. unfold str_getitem.
  rewrite norm_index_nat by (by apply lookup_lt_Some with c).
  simpl. by rewrite Hk.
Qed.

(** Indexing a string never raises anything but [IndexError]. *)
Lemma str_getitem_total (seq : pystr) (i : Z) :
  (exists c, str_getitem seq i = Ok c) \/ str_getitem seq i = Raise IndexError.
Proof.
  unfold str_getitem. destruct (norm_index (length seq) i) as [k|e] eqn:Hk; simpl.
  - destruct (seq !! k); eauto.
  - right. unfold norm_index in Hk. repeat case_match; by simplify_eq.
Qed.

Section Loops.
Context {St : Type}.

(** A [for] loop over [range(n)] with an invariant indexed by the number
    of iterations done. *)
Lemma for_each_seq (Inv : nat -> St -> Prop) (body : Z -> St -> result St)
    (n a : nat) (s : St) :
  Inv a s ->
  (forall k s, (a <= k < a + n)%nat -> Inv k s ->
     exists s', body (Z.of_nat k) s = Ok s' /\ Inv (S k) s') ->
  exists s', for_each (map Z.of_nat (seq a n)) body s = Ok s'
             /\ Inv (a + n)%nat s'.
Proof.
  revert a s. induction n as [|n IH]; intros a s Ha Hstep; simpl.
  - exists s. by rewrite Nat.add_0_r.
  - destruct (Hstep a s ltac:(lia) Ha) as (s1 & -> & H1). simpl.
    assert (Hstep' : forall k t, (S a <= k < S a + n)%nat -> Inv k t ->
              exists t', body (Z.of_nat k) t = Ok t' /\ Inv (S k) t').
    { intros k t Hk. apply Hstep. lia. }
    destruct (IH (S a) s1 H1 Hstep') as (s2 & Hs2 & H2).
    exists s2. split; [done|].
    by replace (a + S n)%nat with (S a + n)%nat by lia.
Qed.

Lemma for_each_range (Inv : nat -> St -> Prop) (body : Z -> St -> result St)
    (n : nat) (s : St) :
  Inv O s ->
  (forall k s, (k < n)%nat -> Inv k s ->
     exists s', body (Z.of_nat k) s = Ok s' /\ Inv (S k) s') ->
  exists s', for_each (range (Z.of_nat n)) body s = Ok s' /\ Inv n s'.
Proof.
  intros H0 Hstep. unfold range. rewrite Nat2Z.id.
  apply (for_each_seq Inv body n O s H0).
  intros k t Hk. apply Hstep. lia.
Qed.

Variables (cond : St -> bool) (body : St -> result St).

Lemma while_loop_unfold (fuel : nat) (s : St) :
  cond s = true ->
  while_loop (S fuel) cond body s = bind (body s) (while_loop fuel cond body).
Proof. intros H. simpl. by rewrite H. Qed.

Lemma while_loop_exit (fuel : nat) (s : St) :
  cond s = false -> while_loop fuel cond body s = Ok s.
Proof. intros H. destruct fuel; simpl; by rewrite H. Qed.

(** Partial correctness: an invariant kept by the body holds at the exit,
    where the condition is false. *)
Lemma while_loop_inv (Inv : St -> Prop) :
  (forall s s', Inv s -> cond s = true -> body s = Ok s' -> Inv s') ->
  forall fuel s s', Inv s -> while_loop fuel cond body s = Ok s' ->
    Inv s' /\ cond s' = false.
Proof.
  intros Hbody. induction fuel as [|fuel IH]; intros s s' Hs; simpl;
    destruct (cond s) eqn:Hc; try discriminate; try (by intros [= <-]).
  intros (s1 & H1 & H2)%bind_Ok_inv. eapply IH; [|done]. by eapply Hbody.
Qed.

(** Total correctness: when the body succeeds under the invariant and
    lowers a measure, fuel above the measure gives the exit state. *)
Lemma while_loop_total (Inv : St -> Prop) (measure : St -> nat) :
  (forall s, Inv s -> cond s = true ->
     exists s', body s = Ok s' /\ Inv s' /\ (measure s' < measure s)%nat) ->
  forall fuel s, Inv s -> (measure s <= fuel)%nat ->
    exists s', while_loop fuel cond body s = Ok s' /\ Inv s' /\ cond s' = false.
Proof.
  intros Hbody. induction fuel as [|fuel IH]; intros s Hs Hm; simpl;
    destruct (cond s) eqn:Hc; eauto.
  - destruct (Hbody s Hs Hc) as (s1 & _ & _ & Hlt). lia.
  - destruct (Hbody s Hs Hc) as (s1 & -> & H1 & Hlt). simpl.
    apply IH; [done | lia].
Qed.
End Loops.

(** ** The recurrence *)

Section Recurrence.
Variables seq1 seq2 : pystr.

Lemma nw_0_r (i : nat) : nw seq1 seq2 i 0 = gap_penalty * Z.of_nat i.
Proof. destruct i; [simpl; lia | reflexivity]. Qed.

Lemma nw_0_l (j : nat) : nw seq1 seq2 0 j = gap_penalty * Z.of_nat j.
Proof. reflexivity. Qed.

Lemma nw_S_S (i j : nat) :
  nw seq1 seq2 (S i) (S j) =
  max3 (nw seq1 seq2 i j + pair_score (symbol seq1 (S i)) (symbol seq2 (S j)))
       (nw seq1 seq2 i (S j) + gap_penalty)
       (nw seq1 seq2 (S i) j + gap_penalty).
Proof. reflexivity. Qed.

Lemma pair_score_le (a b : ascii) : pair_score a b <= 1.
Proof. unfold pair_score. destruct (Ascii.eqb a b); lia. Qed.

Lemma pair_score_refl (a : ascii) : pair_score a a = 1.
Proof. unfold pair_score. by rewrite Ascii.eqb_refl. Qed.

(** No prefix pair scores more than the shorter prefix is long. *)
Lemma nw_le_l (i j : nat) : nw seq1 seq2 i j <= Z.of_nat i.
Proof.
  revert j. induction i as [|i IHi]; intros j.
  - rewrite nw_0_l. unfold gap_penalty. lia.
  - induction j as [|j IHj].
    + rewrite nw_0_r. unfold gap_penalty. lia.
    + rewrite nw_S_S. unfold max3, gap_penalty.
      pose proof (IHi j). pose proof (IHi (S j)).
      pose proof (pair_score_le (symbol seq1 (S i)) (symbol seq2 (S j))). lia.
Qed.

Lemma nw_le_r (i j : nat) : nw seq1 seq2 i j <= Z.of_nat j.
Proof.
  revert j. induction i as [|i IHi]; intros j.
  - rewrite nw_0_l. unfold gap_penalty. lia.
  - induction j as [|j IHj].
    + rewrite nw_0_r. unfold gap_penalty. lia.
    + rewrite nw_S_S. unfold max3, gap_penalty.
      pose proof (IHi j). pose proof (IHi (S j)).
      pose proof (pair_score_le (symbol seq1 (S i)) (symbol seq2 (S j))). lia.
Qed.
End Recurrence.

Lemma pair_score_sym (a b : ascii) : pair_score a b = pair_score b a.
Proof. unfold pair_score. by rewrite Ascii.eqb_sym. Qed.

(** Swapping the two sequences transposes the table. *)
Lemma nw_transpose (seq1 seq2 : pystr) (i j : nat) :
  nw seq1 seq2 i j = nw seq2 seq1 j i.
Proof.
  revert j. induction i as [|i IHi]; intros j.
  - by rewrite nw_0_l, nw_0_r.
  - induction j as [|j IHj].
    + by rewrite nw_0_l, nw_0_r.
    + rewrite !nw_S_S, IHj, !IHi, pair_score_sym. unfold max3. lia.
Qed.

(** On one sequence against itself the diagonal counts the symbols. *)
Lemma nw_diag (seq : pystr) (i : nat) : nw seq seq i i = Z.of_nat i.
Proof.
  induction i as [|i IH]; [reflexivity|].
  pose proof (nw_le_l seq seq (S i) (S i)) as Hle. revert Hle.
  rewrite nw_S_S, IH, pair_score_refl. unfold max3. lia.
Qed.

(** ** Reading and writing cells *)

Lemma getitem_nat (m : ndarray) (i j : nat) (v : pyobj) :
  (i < shape0 m)%nat -> (j < shape1 m)%nat ->
  buffer m !! (i * shape1 m + j)%nat = Some v ->
  getitem m (Z.of_nat i) (Z.of_nat j) = Ok v.
Proof.
  intros Hi Hj Hv. unfold getitem.
  rewrite !norm_index_nat by done. simpl. by rewrite Hv.
Qed.

Lemma setitem_nat (m : ndarray) (i j : nat) (v : pyobj) :
  (i < shape0 m)%nat -> (j < shape1 m)%nat ->
  setitem m (Z.of_nat i) (Z.of_nat j) v =
  Ok (mk_ndarray (shape0 m) (shape1 m)
        (<[(i * shape1 m + j)%nat := v]> (buffer m))).
Proof.
  intros Hi Hj. unfold setitem. by rewrite !norm_index_nat by done.
Qed.

Lemma getitem_last (m : ndarray) (r c : nat) (v : pyobj) :
  shape0 m = S r -> shape1 m = S c ->
  buffer m !! (r * S c + c)%nat = Some v ->
  getitem m (-1) (-1) = Ok v.
Proof.
  intros Hr Hc Hv. unfold getitem.
  rewrite Hr, Hc, !norm_index_last. simpl. by rewrite Hv.
Qed.

Lemma cell_offset_lt (R C i j : nat) :
  (i < R)%nat -> (j < C)%nat -> (i * C + j < R * C)%nat.
Proof. nia. Qed.

Lemma cell_offset_inj (C i j i' j' : nat) :
  (j < C)%nat -> (j' < C)%nat ->
  (i * C + j)%nat = (i' * C + j')%nat -> i = i' /\ j = j'.
Proof.
  intros Hj Hj' Heq.
  assert (i = i') as ->.
  { destruct (Nat.lt_trichotomy i i') as [Hlt|[->|Hlt]]; [|done|].
    - assert (S i * C <= i' * C)%nat by (apply Nat.mul_le_mono_r; lia). lia.
    - assert (S i' * C <= i * C)%nat by (apply Nat.mul_le_mono_r; lia). lia. }
  lia.
Qed.

Lemma symbol_lookup (seq : pystr) (i : nat) :
  (i < length seq)%nat -> seq !! i = Some (symbol seq (S i)).
Proof.
  intros Hi. unfold symbol. rewrite Nat.sub_succ, Nat.sub_0_r.
  revert i Hi. induction seq as [|a seq IH]; intros [|i] Hi; simpl in *;
    try lia; [done|]. apply IH. lia.
Qed.

Lemma str_getitem_pred (seq : pystr) (i : nat) :
  (i < length seq)%nat ->
  str_getitem seq (Z.of_nat (S i) - 1) = Ok (symbol seq (S i)).
Proof.
  intros Hi. replace (Z.of_nat (S i) - 1) with (Z.of_nat i) by lia.
  by apply str_getitem_nat, symbol_lookup.
Qed.

Lemma ScoringMatrix_nat (seq1 seq2 : pystr) (i j : nat) :
  (i < length seq1)%nat -> (j < length seq2)%nat ->
  ScoringMatrix (Z.of_nat (S i)) (Z.of_nat (S j)) seq1 seq2 =
  Ok (pair_score (symbol seq1 (S i)) (symbol seq2 (S j))).
Proof.
  intros Hi Hj. unfold ScoringMatrix.
  rewrite !str_getitem_pred by done. simpl. unfold pair_score.
  by destruct (Ascii.eqb _ _).
Qed.

(** ** The population loops *)

Section Populate.
Variables seq1 seq2 : pystr.
Local Abbreviation R := (S (length seq1)).
Local Abbreviation C := (S (length seq2)).

Lemma filled_read (r c i j : nat) (m : ndarray) :
  filled_upto seq1 seq2 r c m -> (i < R)%nat -> (j < C)%nat ->
  (i < r \/ i = r /\ j < c)%nat ->
  getitem m (Z.of_nat i) (Z.of_nat j) = Ok (PyInt (nw seq1 seq2 i j)).
Proof.
  intros [(H0 & H1 & Hwf) Hcells] Hi Hj Hlt.
  apply getitem_nat; rewrite ?H0, ?H1; try done.
  apply Hcells; [lia | done].
Qed.

Lemma filled_write (r c : nat) (m : ndarray) :
  filled_upto seq1 seq2 r c m -> (r < R)%nat -> (c < C)%nat ->
  exists m', setitem m (Z.of_nat r) (Z.of_nat c) (PyInt (nw seq1 seq2 r c)) = Ok m'
             /\ filled_upto seq1 seq2 r (S c) m'.
Proof.
  intros [(H0 & H1 & Hwf) Hcells] Hr Hc.
  rewrite setitem_nat by (rewrite ?H0, ?H1; done).
  eexists; split; [reflexivity|]. split.
  - repeat split; simpl; try done.
    unfold well_formed in *; simpl. by rewrite length_insert.
  - simpl. intros i j Hj Hlt. rewrite H1.
    destruct (decide (i = r /\ j = c)) as [[-> ->]|Hne].
    + apply list_lookup_insert_eq. rewrite Hwf, H0, H1.
      by apply cell_offset_lt.
    + rewrite list_lookup_insert_ne.
      * apply Hcells; [done | lia].
      * intros Heq. apply cell_offset_inj in Heq; [|lia|lia].
        destruct Heq as [-> ->]. by apply Hne.
Qed.

Lemma populate_cell_step (r c : nat) (m : ndarray) :
  filled_upto seq1 seq2 r c m -> (r < R)%nat -> (c < C)%nat ->
  exists m', populate_cell seq1 seq2 (Z.of_nat r) (Z.of_nat c) m = Ok m'
             /\ filled_upto seq1 seq2 r (S c) m'.
Proof.
  intros Hm Hr Hc. unfold populate_cell.
  destruct r as [|r], c as [|c].
  - simpl. by apply (filled_write 0 0).
  - change (Z.of_nat 0 =? 0) with true.
    replace (Z.of_nat (S c) =? 0) with false by (symmetry; apply Z.eqb_neq; lia).
    simpl andb. cbv iota.
    replace (Z.of_nat (S c) - 1) with (Z.of_nat c) by lia.
    rewrite (filled_read 0 (S c) 0 c m) by (done || lia). cbn [bind add_int].
    replace (nw seq1 seq2 0 c + gap_penalty) with (nw seq1 seq2 0 (S c))
      by (rewrite !nw_0_l; lia).
    by apply (filled_write 0 (S c)).
  - replace (Z.of_nat (S r) =? 0) with false by (symmetry; apply Z.eqb_neq; lia).
    change (Z.of_nat 0 =? 0) with true. simpl andb. cbv iota.
    replace (Z.of_nat (S r) - 1) with (Z.of_nat r) by lia.
    rewrite (filled_read (S r) 0 r 0 m) by (done || lia). cbn [bind add_int].
    replace (nw seq1 seq2 r 0 + gap_penalty) with (nw seq1 seq2 (S r) 0)
      by (rewrite !nw_0_r; lia).
    by apply (filled_write (S r) 0).
  - replace (Z.of_nat (S r) =? 0) with false by (symmetry; apply Z.eqb_neq; lia).
    replace (Z.of_nat (S c) =? 0) with false by (symmetry; apply Z.eqb_neq; lia).
    simpl andb. cbv iota.
    rewrite ScoringMatrix_nat by (lia).
    replace (Z.of_nat (S r) - 1) with (Z.of_nat r) by lia.
    replace (Z.of_nat (S c) - 1) with (Z.of_nat c) by lia.
    rewrite (filled_read (S r) (S c) r c m) by (done || lia).
    rewrite (filled_read (S r) (S c) r (S c) m) by (done || lia).
    rewrite (filled_read (S r) (S c) (S r) c m) by (done || lia).
    cbn [bind add_int]. rewrite <- nw_S_S.
    by apply (filled_write (S r) (S c)).
Qed.

Lemma filled_next_row (r : nat) (m : ndarray) :
  filled_upto seq1 seq2 r C m -> filled_upto seq1 seq2 (S r) 0 m.
Proof.
  intros [Hd Hcells]. split; [done|].
  intros i j Hj Hlt. apply Hcells; [done | lia].
Qed.

Lemma filled_start (matx : ndarray) :
  matching_dims matx seq1 seq2 -> filled_upto seq1 seq2 0 0 matx.
Proof. intros Hd. split; [done|]. intros i j _ Hlt. lia. Qed.

(** The loops succeed on every matrix of matching dimensions, whatever
    it held, and leave the recurrence in every cell. *)
Lemma populate_filled (matx : ndarray) :
  matching_dims matx seq1 seq2 ->
  exists m, populate (Z.of_nat R) (Z.of_nat C) seq1 seq2 matx = Ok m
            /\ filled_upto seq1 seq2 R 0 m.
Proof.
  intros Hd. unfold populate.
  apply (for_each_range (fun r m => filled_upto seq1 seq2 r 0 m)).
  - by apply filled_start.
  - intros r m Hr Hm.
    destruct (for_each_range (fun c m => filled_upto seq1 seq2 r c m)
                (populate_cell seq1 seq2 (Z.of_nat r)) C m Hm)
      as (m' & Hm' & Hfilled).
    + intros c m0 Hc Hm0. by apply populate_cell_step.
    + exists m'. split; [done|]. by apply filled_next_row.
Qed.

Lemma populate_cells (matx : ndarray) :
  matching_dims matx seq1 seq2 ->
  exists m, populate (Z.of_nat R) (Z.of_nat C) seq1 seq2 matx = Ok m
    /\ matching_dims m seq1 seq2
    /\ forall i j : nat, (i <= length seq1)%nat -> (j <= length seq2)%nat ->
         getitem m (Z.of_nat i) (Z.of_nat j) = Ok (PyInt (nw seq1 seq2 i j)).
Proof.
  intros Hd. destruct (populate_filled matx Hd) as (m & Hm & Hfilled).
  exists m. split; [done|]. split; [apply Hfilled|].
  intros i j Hi Hj. apply (filled_read R 0); (done || lia).
Qed.
End Populate.

Lemma populate_populated (seq1 seq2 : pystr) (matx : ndarray) :
  matching_dims matx seq1 seq2 ->
  exists m, populate (Z.of_nat (S (length seq1))) (Z.of_nat (S (length seq2)))
              seq1 seq2 matx = Ok m
            /\ populated seq1 seq2 m.
Proof.
  intros Hd. destruct (populate_cells seq1 seq2 matx Hd) as (m & Hm & Hdims & Hc).
  exists m. split; [done|]. by split.
Qed.

Lemma populated_last (seq1 seq2 : pystr) (m : ndarray) :
  populated seq1 seq2 m ->
  getitem m (-1) (-1) = Ok (PyInt (nw seq1 seq2 (length seq1) (length seq2))).
Proof.
  intros [(H0 & H1 & Hwf) Hcells].
  specialize (Hcells (length seq1) (length seq2) ltac:(lia) ltac:(lia)).
  unfold getitem in *. rewrite H0, H1 in *.
  rewrite !norm_index_last. by rewrite !norm_index_nat in Hcells by lia.
Qed.

(** ** Rendering *)

Lemma str_of_int_read_back (z : Z) : int_of_str (str_of_int z) = Some z.
Proof.
  unfold int_of_str, str_of_int.
  rewrite string_of_list_ascii_of_string, NilZero.isi.
  - simpl. by rewrite DecimalZ.of_to.
  - destruct z as [|p|p]; simpl; [done| |done].
    intros [= Hp]. by apply (DecimalPos.Unsigned.to_uint_nonnil p).
  - destruct z as [|p|p]; simpl; [done|done|].
    intros [= Hp]. by apply (DecimalPos.Unsigned.to_uint_nonnil p).
Qed.

(** ** Gap markers *)

Lemma gapped_strip (seq out : pystr) :
  gapped seq out -> ~ In gap_marker seq -> strip_gaps out = seq.
Proof.
  induction 1 as [|a seq out _ IH|seq out _ IH]; intros Hno; simpl.
  - done.
  - destruct (Ascii.eqb_spec a gap_marker) as [->|_]; simpl.
    + exfalso. apply Hno. by left.
    + f_equal. apply IH. intros Hin. apply Hno. by right.
  - by apply IH.
Qed.

Lemma gapped_refl (seq : pystr) : gapped seq seq.
Proof. induction seq; by constructor. Qed.

Lemma gapped_replicate (n : nat) : gapped [] (replicate n gap_marker).
Proof. induction n; simpl; by constructor. Qed.

(** ** The moves of the backtracking loops *)

Section Moves.
Variables seq1 seq2 : pystr.

Lemma drop_symbol (seq : pystr) (i : nat) :
  (i < length seq)%nat -> drop i seq = symbol seq (S i) :: drop (S i) seq.
Proof. intros Hi. by apply drop_S, symbol_lookup. Qed.

Lemma move_up_nat (i : nat) (c : Z) (a1 a2 : pystr) :
  (i < length seq1)%nat ->
  move_up seq1 (mk_bt (Z.of_nat (S i)) c a1 a2) =
  Ok (mk_bt (Z.of_nat i) c (symbol seq1 (S i) :: a1) (gap_marker :: a2)).
Proof.
  intros Hi. unfold move_up. cbn [row_index column_index seq_one_final seq_two_final].
  rewrite str_getitem_pred by done. cbn [bind].
  by replace (Z.of_nat (S i) - 1) with (Z.of_nat i) by lia.
Qed.

Lemma move_left_nat (j : nat) (r : Z) (a1 a2 : pystr) :
  (j < length seq2)%nat ->
  move_left seq2 (mk_bt r (Z.of_nat (S j)) a1 a2) =
  Ok (mk_bt r (Z.of_nat j) (gap_marker :: a1) (symbol seq2 (S j) :: a2)).
Proof.
  intros Hj. unfold move_left. cbn [row_index column_index seq_one_final seq_two_final].
  rewrite str_getitem_pred by done. cbn [bind].
  by replace (Z.of_nat (S j) - 1) with (Z.of_nat j) by lia.
Qed.

Lemma move_diagonal_nat (i j : nat) (a1 a2 : pystr) :
  (i < length seq1)%nat -> (j < length seq2)%nat ->
  move_diagonal seq1 seq2 (mk_bt (Z.of_nat (S i)) (Z.of_nat (S j)) a1 a2) =
  Ok (mk_bt (Z.of_nat i) (Z.of_nat j)
        (symbol seq1 (S i) :: a1) (symbol seq2 (S j) :: a2)).
Proof.
  intros Hi Hj. unfold move_diagonal.
  cbn [row_index column_index seq_one_final seq_two_final].
  rewrite !str_getitem_pred by done. cbn [bind].
  replace (Z.of_nat (S i) - 1) with (Z.of_nat i) by lia.
  by replace (Z.of_nat (S j) - 1) with (Z.of_nat j) by lia.
Qed.

Variable m : ndarray.
Hypothesis Hm : populated seq1 seq2 m.

Lemma candidate_scores_nat (i j : nat) (a1 a2 : pystr) :
  (i < length seq1)%nat -> (j < length seq2)%nat ->
  candidate_scores m seq1 seq2 (mk_bt (Z.of_nat (S i)) (Z.of_nat (S j)) a1 a2) =
  Ok (nw seq1 seq2 i j + pair_score (symbol seq1 (S i)) (symbol seq2 (S j)),
      nw seq1 seq2 i (S j) + -2,
      nw seq1 seq2 (S i) j + -2).
Proof.
  intros Hi Hj. destruct Hm as [_ Hcells]. unfold candidate_scores.
  cbn [row_index column_index seq_one_final seq_two_final].
  rewrite ScoringMatrix_nat by done.
  replace (Z.of_nat (S i) - 1) with (Z.of_nat i) by lia.
  replace (Z.of_nat (S j) - 1) with (Z.of_nat j) by lia.
  by rewrite !Hcells by lia.
Qed.

(** One turn of the main loop: it succeeds, keeps the invariant and
    lowers the sum of the indices. *)
Lemma walk_body_step (st : bt_state) :
  bt_invariant seq1 seq2 st -> walk_cond st = true ->
  exists st', walk_body m seq1 seq2 st = Ok st'
              /\ bt_invariant seq1 seq2 st'
              /\ (walk_fuel st' < walk_fuel st)%nat.
Proof.
  intros (i & j & Hr & Hc & Hi & Hj & Hlen & Hg1 & Hg2) Hcond.
  destruct st as [r c a1 a2]. unfold walk_cond in Hcond.
  cbn [row_index column_index seq_one_final seq_two_final] in *. subst r c.
  apply andb_prop in Hcond as [Hr%Z.gtb_lt Hc%Z.gtb_lt].
  destruct i as [|i]; [lia|]. destruct j as [|j]; [lia|].
  unfold walk_body. rewrite candidate_scores_nat by lia. cbn [bind].
  pose proof (drop_symbol seq1 i ltac:(lia)) as Hd1.
  pose proof (drop_symbol seq2 j ltac:(lia)) as Hd2.
  destruct (_ && _); [|destruct (_ >? _)].
  - rewrite move_diagonal_nat by lia. eexists; split; [done|]. split.
    + exists i, j. cbn. rewrite Hd1, Hd2.
      repeat split; try lia; by constructor.
    + unfold walk_fuel; cbn; lia.
  - rewrite move_up_nat by lia. eexists; split; [done|]. split.
    + exists i, (S j). cbn. rewrite Hd1.
      repeat split; try lia; by constructor.
    + unfold walk_fuel; cbn; lia.
  - rewrite move_left_nat by lia. eexists; split; [done|]. split.
    + exists (S i), j. cbn. rewrite Hd2.
      repeat split; try lia; by constructor.
    + unfold walk_fuel; cbn; lia.
Qed.

(** One turn of either clean-up loop. *)
Lemma move_up_step (st : bt_state) :
  bt_invariant seq1 seq2 st -> rows_left st = true ->
  exists st', move_up seq1 st = Ok st'
              /\ bt_invariant seq1 seq2 st'
              /\ column_index st' = column_index st
              /\ (Z.to_nat (row_index st') < Z.to_nat (row_index st))%nat.
Proof.
  intros (i & j & Hr & Hc & Hi & Hj & Hlen & Hg1 & Hg2) Hcond.
  destruct st as [r c a1 a2]. unfold rows_left in Hcond.
  cbn [row_index column_index seq_one_final seq_two_final] in *. subst r c.
  apply negb_true_iff, Z.eqb_neq in Hcond.
  destruct i as [|i]; [lia|].
  pose proof (drop_symbol seq1 i ltac:(lia)) as Hd1.
  rewrite move_up_nat by lia. eexists; split; [done|]. split; [|split].
  - exists i, j. cbn. rewrite Hd1. repeat split; try lia; by constructor.
  - done.
  - cbn. lia.
Qed.

Lemma move_left_step (st : bt_state) :
  bt_invariant seq1 seq2 st -> columns_left st = true ->
  exists st', move_left seq2 st = Ok st'
              /\ bt_invariant seq1 seq2 st'
              /\ row_index st' = row_index st
              /\ (Z.to_nat (column_index st') < Z.to_nat (column_index st))%nat.
Proof.
  intros (i & j & Hr & Hc & Hi & Hj & Hlen & Hg1 & Hg2) Hcond.
  destruct st as [r c a1 a2]. unfold columns_left in Hcond.
  cbn [row_index column_index seq_one_final seq_two_final] in *. subst r c.
  apply negb_true_iff, Z.eqb_neq in Hcond.
  destruct j as [|j]; [lia|].
  pose proof (drop_symbol seq2 j ltac:(lia)) as Hd2.
  rewrite move_left_nat by lia. eexists; split; [done|]. split; [|split].
  - exists i, j. cbn. rewrite Hd2. repeat split; try lia; by constructor.
  - done.
  - cbn. lia.
Qed.

(** [BackTracking] on a populated matrix: both loops run to the origin
    and the outputs are the two inputs with gap markers put in. *)
Lemma BackTracking_alignment_populated :
  exists a1 a2, BackTracking_alignment m seq1 seq2 = Ok (a1, a2)
                /\ length a1 = length a2
                /\ gapped seq1 a1 /\ gapped seq2 a2.
Proof.
  unfold BackTracking_alignment.
  destruct Hm as [(H0 & H1 & _) _]. rewrite H0, H1.
  set (st0 := mk_bt _ _ _ _).
  assert (Hst0 : bt_invariant seq1 seq2 st0).
  { exists (length seq1), (length seq2). subst st0. cbn.
    rewrite !drop_all. repeat split; try lia; constructor. }
  destruct (while_loop_total walk_cond (walk_body m seq1 seq2)
              (bt_invariant seq1 seq2) walk_fuel walk_body_step
              (walk_fuel st0) st0 Hst0 (Nat.le_refl _))
    as (st1 & -> & Hst1 & Hexit).
  cbn [bind].
  assert (exists st2,
    (if column_index st1 =? 0
     then while_loop (drain_fuel seq1 (row_index st1)) rows_left (move_up seq1) st1
     else if row_index st1 =? 0
     then while_loop (drain_fuel seq2 (column_index st1)) columns_left
            (move_left seq2) st1
     else Ok st1) = Ok st2
    /\ bt_invariant seq1 seq2 st2
    /\ row_index st2 = 0 /\ column_index st2 = 0) as (st2 & -> & Hst2 & Hr2 & Hc2).
  { destruct (Z.eqb_spec (column_index st1) 0) as [Hc0|Hc0].
    - destruct (while_loop_total rows_left (move_up seq1)
                  (fun st => bt_invariant seq1 seq2 st /\ column_index st = 0)
                  (fun st => Z.to_nat (row_index st)))
        with (fuel := drain_fuel seq1 (row_index st1)) (s := st1)
        as (st2 & Hloop & [Hst2 Hc2] & Hexit2).
      + intros st [Hst Hc] Hcond.
        destruct (move_up_step st Hst Hcond) as (st' & ? & ? & Hc' & ?).
        exists st'. repeat split; try done. by rewrite Hc'.
      + done.
      + unfold drain_fuel. lia.
      + exists st2. repeat split; try done.
        unfold rows_left in Hexit2. by apply negb_false_iff, Z.eqb_eq in Hexit2.
    - assert (Hr0 : row_index st1 = 0).
      { unfold walk_cond in Hexit.
        destruct Hst1 as (i & j & Hr & Hc & _).
        apply andb_false_iff in Hexit as [Hx|Hx]; apply Z.gtb_ltb, Z.ltb_ge in Hx || idtac; lia. }
      rewrite Hr0. change (0 =? 0) with true. cbv iota.
      destruct (while_loop_total columns_left (move_left seq2)
                  (fun st => bt_invariant seq1 seq2 st /\ row_index st = 0)
                  (fun st => Z.to_nat (column_index st)))
        with (fuel := drain_fuel seq2 (column_index st1)) (s := st1)
        as (st2 & Hloop & [Hst2 Hr2] & Hexit2).
      + intros st [Hst Hr] Hcond.
        destruct (move_left_step st Hst Hcond) as (st' & ? & ? & Hr' & ?).
        exists st'. repeat split; try done. by rewrite Hr'.
      + done.
      + unfold drain_fuel. lia.
      + exists st2. repeat split; try done.
        unfold columns_left in Hexit2. by apply negb_false_iff, Z.eqb_eq in Hexit2. }
  cbn [bind]. exists (seq_one_final st2), (seq_two_final st2).
  destruct Hst2 as (i & j & Hr & Hc & _ & _ & Hlen & Hg1 & Hg2).
  assert (i = O) as -> by lia. assert (j = O) as -> by lia.
  by rewrite !drop_0 in *.
Qed.
End Moves.

(** ** The bound of the model is never met *)

Create HintDb fuel.

Lemma within_fuel_Ok {A : Type} (a : A) : within_fuel (Ok a).
Proof. done. Qed.

Lemma within_fuel_bind {A B : Type} (r : result A) (k : A -> result B) :
  within_fuel r -> (forall a, within_fuel (k a)) -> within_fuel (bind r k).
Proof.
  destruct r as [a|e]; simpl; [auto|].
  intros Hr _ [= ->]. by apply Hr.
Qed.

Lemma within_fuel_norm_index (n : nat) (i : Z) : within_fuel (norm_index n i).
Proof. unfold norm_index. by case_match. Qed.

#[local] Hint Resolve within_fuel_Ok within_fuel_bind within_fuel_norm_index
  : fuel.

Ltac solve_within_fuel :=
  repeat (intros; first
    [ apply within_fuel_Ok
    | apply within_fuel_bind
    | progress auto with fuel
    | done
    | case_match ]).

Lemma within_fuel_str_getitem (seq : pystr) (i : Z) :
  within_fuel (str_getitem seq i).
Proof. unfold str_getitem. solve_within_fuel. Qed.

Lemma within_fuel_getitem (m : ndarray) (i j : Z) : within_fuel (getitem m i j).
Proof. unfold getitem. solve_within_fuel. Qed.

Lemma within_fuel_setitem (m : ndarray) (i j : Z) (v : pyobj) :
  within_fuel (setitem m i j v).
Proof. unfold setitem. solve_within_fuel. Qed.

Lemma within_fuel_add_int (x : pyobj) (k : Z) : within_fuel (add_int x k).
Proof. by destruct x. Qed.

#[local] Hint Resolve within_fuel_str_getitem within_fuel_getitem
  within_fuel_setitem within_fuel_add_int : fuel.

Lemma within_fuel_ScoringMatrix (i j : Z) (seq1 seq2 : pystr) :
  within_fuel (ScoringMatrix i j seq1 seq2).
Proof. unfold ScoringMatrix. solve_within_fuel. Qed.

#[local] Hint Resolve within_fuel_ScoringMatrix : fuel.

Lemma within_fuel_populate_cell (seq1 seq2 : pystr) (row column : Z)
    (m : ndarray) :
  within_fuel (populate_cell seq1 seq2 row column m).
Proof. unfold populate_cell. solve_within_fuel. Qed.

Lemma within_fuel_for_each {St : Type} (xs : list Z)
    (body : Z -> St -> result St) (s : St) :
  (forall x s, within_fuel (body x s)) -> within_fuel (for_each xs body s).
Proof.
  intros Hbody. revert s. induction xs; intros s; simpl; solve_within_fuel.
Qed.

Lemma within_fuel_populate (seq_rows seq_columns : Z) (seq1 seq2 : pystr)
    (matx : ndarray) :
  within_fuel (populate seq_rows seq_columns seq1 seq2 matx).
Proof.
  unfold populate. apply within_fuel_for_each. intros row m.
  apply within_fuel_for_each. intros. apply within_fuel_populate_cell.
Qed.

Lemma within_fuel_moves (seq1 seq2 : pystr) (st : bt_state) :
  within_fuel (move_diagonal seq1 seq2 st) /\
  within_fuel (move_up seq1 st) /\ within_fuel (move_left seq2 st).
Proof. unfold move_diagonal, move_up, move_left. repeat split; solve_within_fuel. Qed.

Lemma within_fuel_walk_body (m : ndarray) (seq1 seq2 : pystr) (st : bt_state) :
  within_fuel (walk_body m seq1 seq2 st).
Proof.
  pose proof (within_fuel_moves seq1 seq2 st) as (? & ? & ?).
  unfold walk_body, candidate_scores. solve_within_fuel.
Qed.

(** A loop whose body lowers a measure for as long as the condition holds
    does not meet a bound above the measure. *)
Lemma within_fuel_while_loop {St : Type} (cond : St -> bool)
    (body : St -> result St) (measure : St -> nat) :
  (forall s, within_fuel (body s)) ->
  (forall s s', cond s = true -> body s = Ok s' -> cond s' = true ->
     (measure s' < measure s)%nat) ->
  forall fuel s, (cond s = true -> (measure s < fuel)%nat) ->
    within_fuel (while_loop fuel cond body s).
Proof.
  intros Hbody Hlower. induction fuel as [|fuel IH]; intros s Hs; simpl;
    destruct (cond s) eqn:Hc; try done.
  - specialize (Hs eq_refl). lia.
  - specialize (Hs eq_refl). specialize (Hbody s).
    destruct (body s) as [s'|e] eqn:Hb; simpl; [|done].
    apply IH. intros Hc'. specialize (Hlower s s' Hc Hb Hc'). lia.
Qed.

Lemma str_getitem_Ok_range (seq : pystr) (i : Z) (c : ascii) :
  str_getitem seq i = Ok c -> - Z.of_nat (length seq) <= i < Z.of_nat (length seq).
Proof.
  unfold str_getitem. intros (k & Hk & _)%bind_Ok_inv.
  unfold norm_index in Hk.
  destruct (Z.ltb_spec i 0); (destruct (_ && _) eqn:Hb; [|discriminate]);
    apply andb_prop in Hb as [Ha%Z.leb_le Hb%Z.ltb_lt]; lia.
Qed.

Lemma within_fuel_walk (m : ndarray) (seq1 seq2 : pystr) (st : bt_state) :
  within_fuel (while_loop (walk_fuel st) walk_cond (walk_body m seq1 seq2) st).
Proof.
  apply within_fuel_while_loop
    with (measure := fun st => Z.to_nat (row_index st + column_index st - 1)).
  - apply within_fuel_walk_body.
  - intros s s' Hc Hb Hc'. unfold walk_cond in *.
    apply andb_prop in Hc as [?%Z.gtb_lt ?%Z.gtb_lt].
    apply andb_prop in Hc' as [?%Z.gtb_lt ?%Z.gtb_lt].
    unfold walk_body in Hb. apply bind_Ok_inv in Hb as ([[d u] l] & _ & Hb).
    unfold move_diagonal, move_up, move_left in Hb.
    repeat case_match;
      repeat (apply bind_Ok_inv in Hb as (? & _ & Hb));
      injection Hb as <-; cbn in *; lia.
  - unfold walk_cond, walk_fuel.
    intros [?%Z.gtb_lt ?%Z.gtb_lt]%andb_prop. lia.
Qed.

Lemma within_fuel_drain_rows (seq1 : pystr) (st : bt_state) :
  within_fuel (while_loop (drain_fuel seq1 (row_index st)) rows_left
                 (move_up seq1) st).
Proof.
  apply within_fuel_while_loop
    with (measure := fun st =>
            if 0 <? row_index st then Z.to_nat (row_index st - 1)
            else Z.to_nat (Z.of_nat (length seq1) + row_index st)).
  - intros. apply within_fuel_moves; exact [].
  - intros s s' Hc Hb Hc'. unfold rows_left in *.
    apply negb_true_iff, Z.eqb_neq in Hc, Hc'.
    unfold move_up in Hb. apply bind_Ok_inv in Hb as (a & Ha%str_getitem_Ok_range & Hb).
    injection Hb as <-. cbn in *.
    destruct (Z.ltb_spec 0 (row_index s)), (Z.ltb_spec 0 (row_index s - 1)); lia.
  - unfold rows_left, drain_fuel. intros _.
    destruct (Z.ltb_spec 0 (row_index st)); lia.
Qed.

Lemma within_fuel_drain_columns (seq2 : pystr) (st : bt_state) :
  within_fuel (while_loop (drain_fuel seq2 (column_index st)) columns_left
                 (move_left seq2) st).
Proof.
  apply within_fuel_while_loop
    with (measure := fun st =>
            if 0 <? column_index st then Z.to_nat (column_index st - 1)
            else Z.to_nat (Z.of_nat (length seq2) + column_index st)).
  - intros. apply within_fuel_moves; exact [].
  - intros s s' Hc Hb Hc'. unfold columns_left in *.
    apply negb_true_iff, Z.eqb_neq in Hc, Hc'.
    unfold move_left in Hb. apply bind_Ok_inv in Hb as (a & Ha%str_getitem_Ok_range & Hb).
    injection Hb as <-. cbn in *.
    destruct (Z.ltb_spec 0 (column_index s)), (Z.ltb_spec 0 (column_index s - 1)); lia.
  - unfold columns_left, drain_fuel. intros _.
    destruct (Z.ltb_spec 0 (column_index st)); lia.
Qed.

(** On every input, of matching dimensions or not, the three loops of
    [BackTracking] end within their bounds: [FuelExhausted] is never the
    outcome of the modelled program. *)
Lemma within_fuel_BackTracking (matx : ndarray) (seq1 seq2 : pystr) :
  within_fuel (BackTracking matx seq1 seq2).
Proof.
  unfold BackTracking, BackTracking_alignment.
  apply within_fuel_bind; [|solve_within_fuel].
  apply within_fuel_bind; [apply within_fuel_walk|]. intros st1.
  apply within_fuel_bind; [|solve_within_fuel].
  destruct (_ =? _); [apply within_fuel_drain_rows|].
  destruct (_ =? _); [apply within_fuel_drain_columns | done].
Qed.

Lemma within_fuel_PopulateMatrix (seq_rows seq_columns : Z) (seq1 seq2 : pystr)
    (matx : ndarray) :
  within_fuel (PopulateMatrix seq_rows seq_columns seq1 seq2 matx).
Proof.
  unfold PopulateMatrix. apply within_fuel_bind.
  - apply within_fuel_populate.
  - intros m. apply within_fuel_BackTracking.
Qed.

(** ** The tie-break of the main loop *)

Lemma candidate_scores_symbols (matrix : ndarray) (seq_one seq_two : pystr)
    (st : bt_state) (scores : Z * Z * Z) :
  candidate_scores matrix seq_one seq_two st = Ok scores ->
  exists a b, str_getitem seq_one (row_index st - 1) = Ok a
              /\ str_getitem seq_two (column_index st - 1) = Ok b.
Proof.
  unfold candidate_scores.
  intros (diag & _ & (score & Hscore & _)%bind_Ok_inv)%bind_Ok_inv.
  unfold ScoringMatrix in Hscore.
  apply bind_Ok_inv in Hscore as (a & Ha & (b & Hb & _)%bind_Ok_inv). eauto.
Qed.

(** C1.  At a turn of the main loop (both indices positive) whose three
    scores are [d] (diagonal), [u] (up) and [l] (left), the turn succeeds
    and the loop goes on from its result; the turn is the diagonal move
    exactly when [d > u] and [d > l]; otherwise it is the up move exactly
    when [u > l]; otherwise it is the left move.  A three-way tie is a left
    move. *)
Theorem backtracking_tie_break (matrix : ndarray) (seq_one seq_two : pystr)
    (st : bt_state) (d u l : Z) (fuel : nat) :
  walk_cond st = true ->
  candidate_scores matrix seq_one seq_two st = Ok (d, u, l) ->
  let turn := walk_body matrix seq_one seq_two st in
  (exists st', turn = Ok st' /\
     while_loop (S fuel) walk_cond (walk_body matrix seq_one seq_two) st =
     while_loop fuel walk_cond (walk_body matrix seq_one seq_two) st') /\
  (turn = move_diagonal seq_one seq_two st <-> d > u /\ d > l) /\
  (turn = move_up seq_one st <-> ~ (d > u /\ d > l) /\ u > l) /\
  (turn = move_left seq_two st <-> ~ (d > u /\ d > l) /\ ~ u > l) /\
  (d = u -> u = l -> turn = move_left seq_two st).
Proof.
  intros Hcond Hscores turn.
  destruct (candidate_scores_symbols _ _ _ _ _ Hscores) as (a & b & Ha & Hb).
  assert (Hdiag : move_diagonal seq_one seq_two st =
                  Ok (mk_bt (row_index st - 1) (column_index st - 1)
                        (a :: seq_one_final st) (b :: seq_two_final st)))
    by (unfold move_diagonal; by rewrite Ha, Hb).
  assert (Hup : move_up seq_one st =
                Ok (mk_bt (row_index st - 1) (column_index st)
                      (a :: seq_one_final st) (gap_marker :: seq_two_final st)))
    by (unfold move_up; by rewrite Ha).
  assert (Hleft : move_left seq_two st =
                  Ok (mk_bt (row_index st) (column_index st - 1)
                        (gap_marker :: seq_one_final st) (b :: seq_two_final st)))
    by (unfold move_left; by rewrite Hb).
  assert (Hturn : turn =
            if (d >? u) && (d >? l) then move_diagonal seq_one seq_two st
            else if u >? l then move_up seq_one st
            else move_left seq_two st)
    by (subst turn; unfold walk_body; by rewrite Hscores).
  rewrite Hturn, Hdiag, Hup, Hleft.
  destruct (Z.gtb_spec d u), (Z.gtb_spec d l), (Z.gtb_spec u l);
    cbn [andb]; (split; [eexists; split; [reflexivity|];
      rewrite while_loop_unfold by done; fold turn; rewrite Hturn;
      repeat match goal with
             | |- context [?x >? ?y] => destruct (Z.gtb_spec x y); try lia
             end; cbn [andb]; by rewrite ?Hdiag, ?Hup, ?Hleft|]);
    repeat split; intros; try lia; try done;
      match goal with
      | H : Ok _ = Ok _ |- _ => injection H; intros; lia
      end.
Qed.

(** C1, on a three-way tie: the scores are 0, 0 and 0 and the turn is a
    left move. *)
Lemma backtracking_tie_break_witness :
  let matrix := mk_ndarray 2 2 [PyInt 1; PyInt 2; PyInt 2; PyNone] in
  let seq_one := list_ascii_of_string "A" in
  let seq_two := list_ascii_of_string "G" in
  let st := mk_bt 1 1 [] [] in
  walk_cond st = true /\
  candidate_scores matrix seq_one seq_two st = Ok (0, 0, 0) /\
  walk_body matrix seq_one seq_two st = move_left seq_two st.
Proof.
  intros matrix seq_one seq_two st.
  split; [reflexivity|]. split; [reflexivity|].
  apply (backtracking_tie_break matrix seq_one seq_two st 0 0 0 O);
    reflexivity.
Defined.

(** ** The matrix built by [PopulateMatrix] *)

Lemma pair_score_spec (a b : ascii) :
  (a = b -> pair_score a b = 1) /\ (a <> b -> pair_score a b = -1).
Proof. unfold pair_score. destruct (Ascii.eqb_spec a b); split; done. Qed.

(** C2.  On a matrix of matching dimensions the loops of [PopulateMatrix]
    succeed, and the cells [cell i j] they leave satisfy: [cell 0 0 = 0];
    [cell i 0 = cell (i-1) 0 + gap_penalty] for [i > 0];
    [cell 0 j = cell 0 (j-1) + gap_penalty] for [j > 0]; and for [i, j > 0],
    with [a] the [i]-th symbol of [seq1] and [b] the [j]-th of [seq2],
    [cell i j] is the maximum of [cell (i-1) (j-1) + pair_score a b],
    [cell (i-1) j + gap_penalty] and [cell i (j-1) + gap_penalty], where
    [pair_score a b] is what [ScoringMatrix] returns there: 1 when [a = b]
    and -1 otherwise; [gap_penalty] is -2. *)
Theorem populate_recurrence (seq1 seq2 : pystr) (matx : ndarray) :
  matching_dims matx seq1 seq2 ->
  exists (m : ndarray) (cell : nat -> nat -> Z),
    populate (Z.of_nat (S (length seq1))) (Z.of_nat (S (length seq2)))
      seq1 seq2 matx = Ok m /\
    (forall i j : nat, (i <= length seq1)%nat -> (j <= length seq2)%nat ->
       getitem m (Z.of_nat i) (Z.of_nat j) = Ok (PyInt (cell i j))) /\
    cell O O = 0 /\
    (forall i : nat, (0 < i <= length seq1)%nat ->
       cell i O = cell (i - 1)%nat O + gap_penalty) /\
    (forall j : nat, (0 < j <= length seq2)%nat ->
       cell O j = cell O (j - 1)%nat + gap_penalty) /\
    (forall i j : nat, (0 < i <= length seq1)%nat -> (0 < j <= length seq2)%nat ->
       exists a b : ascii,
         seq1 !! (i - 1)%nat = Some a /\ seq2 !! (j - 1)%nat = Some b /\
         ScoringMatrix (Z.of_nat i) (Z.of_nat j) seq1 seq2 = Ok (pair_score a b) /\
         cell i j = max3 (cell (i - 1)%nat (j - 1)%nat + pair_score a b)
                         (cell (i - 1)%nat j + gap_penalty)
                         (cell i (j - 1)%nat + gap_penalty)) /\
    (forall a b : ascii,
       (a = b -> pair_score a b = 1) /\ (a <> b -> pair_score a b = -1)) /\
    gap_penalty = -2.
Proof.
  intros Hd. destruct (populate_cells seq1 seq2 matx Hd) as (m & Hm & _ & Hcells).
  exists m, (nw seq1 seq2). split; [done|]. split; [done|].
  split; [reflexivity|]. split; [|split; [|split; [|split]]].
  - intros [|i] Hi; [lia|]. rewrite Nat.sub_succ, Nat.sub_0_r, !nw_0_r.
    unfold gap_penalty. lia.
  - intros [|j] Hj; [lia|]. rewrite Nat.sub_succ, Nat.sub_0_r, !nw_0_l.
    unfold gap_penalty. lia.
  - intros [|i] [|j] Hi Hj; try lia.
    exists (symbol seq1 (S i)), (symbol seq2 (S j)).
    rewrite !Nat.sub_succ, !Nat.sub_0_r.
    split; [apply symbol_lookup; lia|]. split; [apply symbol_lookup; lia|].
    split; [apply ScoringMatrix_nat; lia|]. apply nw_S_S.
  - apply pair_score_spec.
  - reflexivity.
Qed.

(** C2 on "AC" against "AG", starting from the matrix of [None] that
    [ParserFile] allocates. *)
Lemma populate_recurrence_witness :
  let seq1 := list_ascii_of_string "AC" in
  let seq2 := list_ascii_of_string "AG" in
  matching_dims (np_full 3 3 PyNone) seq1 seq2 /\
  exists (m : ndarray) (cell : nat -> nat -> Z),
    populate 3 3 seq1 seq2 (np_full 3 3 PyNone) = Ok m /\
    getitem m 2 2 = Ok (PyInt (cell 2%nat 2%nat)) /\
    cell 2%nat 2%nat = max3 (cell 1%nat 1%nat + -1) (cell 1%nat 2%nat + -2)
                            (cell 2%nat 1%nat + -2).
Proof.
  intros seq1 seq2.
  assert (Hd : matching_dims (np_full 3 3 PyNone) seq1 seq2)
    by (repeat split; reflexivity).
  split; [exact Hd|].
  destruct (populate_recurrence seq1 seq2 (np_full 3 3 PyNone) Hd)
    as (m & cell & Hm & Hcells & _ & _ & _ & Hinner & _).
  exists m, cell. split; [exact Hm|].
  split; [apply (Hcells 2%nat 2%nat); simpl; lia|].
  destruct (Hinner 2%nat 2%nat) as (a & b & Ha & Hb & _ & Hcell);
    [simpl; lia | simpl; lia |].
  injection Ha as <-. injection Hb as <-. exact Hcell.
Defined.

(** C5.  On a matrix of matching dimensions the loops of [PopulateMatrix]
    leave 0 in cell (0,0), [-2 * i] in cell (i,0) for every row [i] and
    [-2 * j] in cell (0,j) for every column [j]. *)
Theorem populate_borders (seq1 seq2 : pystr) (matx : ndarray) :
  matching_dims matx seq1 seq2 ->
  exists m : ndarray,
    populate (Z.of_nat (S (length seq1))) (Z.of_nat (S (length seq2)))
      seq1 seq2 matx = Ok m /\
    shape0 m = S (length seq1) /\ shape1 m = S (length seq2) /\
    getitem m 0 0 = Ok (PyInt 0) /\
    (forall i : nat, (i <= length seq1)%nat ->
       getitem m (Z.of_nat i) 0 = Ok (PyInt (-2 * Z.of_nat i))) /\
    (forall j : nat, (j <= length seq2)%nat ->
       getitem m 0 (Z.of_nat j) = Ok (PyInt (-2 * Z.of_nat j))).
Proof.
  intros Hd.
  destruct (populate_cells seq1 seq2 matx Hd) as (m & Hm & (H0 & H1 & _) & Hcells).
  exists m. split; [done|]. split; [done|]. split; [done|]. split; [|split].
  - apply (Hcells O O); lia.
  - intros i Hi. rewrite <- (nw_0_r seq1 seq2 i : _ = -2 * _).
    apply (Hcells i O); [done | lia].
  - intros j Hj. rewrite <- (nw_0_l seq1 seq2 j : _ = -2 * _).
    apply (Hcells O j); [lia | done].
Qed.

(** C5 on "ACG" against "TT". *)
Lemma populate_borders_witness :
  let seq1 := list_ascii_of_string "ACG" in
  let seq2 := list_ascii_of_string "TT" in
  matching_dims (np_full 4 3 PyNone) seq1 seq2 /\
  exists m : ndarray,
    populate 4 3 seq1 seq2 (np_full 4 3 PyNone) = Ok m /\
    getitem m 0 0 = Ok (PyInt 0) /\
    getitem m 3 0 = Ok (PyInt (-6)) /\
    getitem m 0 2 = Ok (PyInt (-4)).
Proof.
  intros seq1 seq2.
  assert (Hd : matching_dims (np_full 4 3 PyNone) seq1 seq2)
    by (repeat split; reflexivity).
  split; [exact Hd|].
  destruct (populate_borders seq1 seq2 (np_full 4 3 PyNone) Hd)
    as (m & Hm & _ & _ & H00 & Hrows & Hcols).
  exists m. split; [exact Hm|]. split; [exact H00|].
  split; [apply (Hrows 3%nat) | apply (Hcols 2%nat)]; simpl; lia.
Defined.

(** C4.  The final cell of the matrix built for [(A, B)] and the final
    cell of the matrix built for [(B, A)] hold the same score. *)
Theorem final_score_symmetric (A B : pystr) (matxAB matxBA : ndarray) :
  matching_dims matxAB A B ->
  matching_dims matxBA B A ->
  exists (mAB mBA : ndarray) (score : Z),
    populate (Z.of_nat (S (length A))) (Z.of_nat (S (length B))) A B matxAB
      = Ok mAB /\
    populate (Z.of_nat (S (length B))) (Z.of_nat (S (length A))) B A matxBA
      = Ok mBA /\
    getitem mAB (Z.of_nat (length A)) (Z.of_nat (length B)) = Ok (PyInt score) /\
    getitem mBA (Z.of_nat (length B)) (Z.of_nat (length A)) = Ok (PyInt score) /\
    getitem mAB (-1) (-1) = Ok (PyInt score) /\
    getitem mBA (-1) (-1) = Ok (PyInt score).
Proof.
  intros HAB HBA.
  destruct (populate_populated A B matxAB HAB) as (mAB & HmAB & HpAB).
  destruct (populate_populated B A matxBA HBA) as (mBA & HmBA & HpBA).
  exists mAB, mBA, (nw A B (length A) (length B)).
  split; [done|]. split; [done|]. split; [|split; [|split]].
  - by apply HpAB.
  - rewrite nw_transpose. by apply HpBA.
  - by apply populated_last.
  - rewrite nw_transpose. by apply populated_last.
Qed.

(** C4 on "GATTACA" and "GCATGCU". *)
Lemma final_score_symmetric_witness :
  let A := list_ascii_of_string "GATTACA" in
  let B := list_ascii_of_string "GCATGCU" in
  matching_dims (np_full 8 8 PyNone) A B /\
  matching_dims (np_full 8 8 PyNone) B A /\
  exists (mAB mBA : ndarray) (score : Z),
    populate 8 8 A B (np_full 8 8 PyNone) = Ok mAB /\
    populate 8 8 B A (np_full 8 8 PyNone) = Ok mBA /\
    getitem mAB (-1) (-1) = Ok (PyInt score) /\
    getitem mBA (-1) (-1) = Ok (PyInt score).
Proof.
  intros A B.
  assert (HAB : matching_dims (np_full 8 8 PyNone) A B)
    by (repeat split; reflexivity).
  assert (HBA : matching_dims (np_full 8 8 PyNone) B A)
    by (repeat split; reflexivity).
  split; [exact HAB|]. split; [exact HBA|].
  destruct (final_score_symmetric A B _ _ HAB HBA)
    as (mAB & mBA & score & H1 & H2 & _ & _ & H3 & H4).
  exists mAB, mBA, score. repeat split; assumption.
Defined.

(** ** Two particular alignments *)

(** A sequence against itself: every turn of the main loop is diagonal. *)
Lemma BackTracking_alignment_self (A : pystr) (m : ndarray) :
  populated A A m -> BackTracking_alignment m A A = Ok (A, A).
Proof.
  intros Hm. unfold BackTracking_alignment.
  destruct Hm as [(H0 & H1 & Hwf) Hcells]. rewrite H0, H1.
  assert (Hm : populated A A m) by done.
  set (st0 := mk_bt _ _ _ _).
  set (Inv := fun st : bt_state => exists i : nat,
         (i <= length A)%nat /\
         st = mk_bt (Z.of_nat i) (Z.of_nat i) (drop i A) (drop i A)).
  destruct (while_loop_total walk_cond (walk_body m A A) Inv walk_fuel)
    with (fuel := walk_fuel st0) (s := st0) as (st1 & -> & (i & Hi & ->) & Hexit).
  - intros st (i & Hi & ->) Hcond. unfold walk_cond in Hcond. cbn in Hcond.
    apply andb_prop in Hcond as [Hpos%Z.gtb_lt _].
    destruct i as [|i]; [lia|].
    unfold walk_body. rewrite (candidate_scores_nat A A m Hm) by lia.
    cbn [bind]. rewrite nw_diag, pair_score_refl.
    pose proof (nw_le_l A A i (S i)). pose proof (nw_le_r A A (S i) i).
    destruct (Z.gtb_spec (Z.of_nat i + 1) (nw A A i (S i) + -2)); [|lia].
    destruct (Z.gtb_spec (Z.of_nat i + 1) (nw A A (S i) i + -2)); [|lia].
    cbn [andb]. rewrite move_diagonal_nat by lia.
    eexists; split; [done|]. split.
    + exists i. split; [lia|]. by rewrite (drop_symbol A i) by lia.
    + unfold walk_fuel. cbn. lia.
  - exists (length A). split; [done|]. subst st0.
    rewrite drop_all. f_equal; lia.
  - done.
  - unfold walk_cond in Hexit. cbn in Hexit.
    assert (i = O) as ->.
    { apply andb_false_iff in Hexit as [Hx|Hx];
        destruct (Z.gtb_spec (Z.of_nat i) 0); (done || lia). }
    cbn [bind column_index]. change (Z.of_nat 0 =? 0) with true. cbv iota.
    by rewrite while_loop_exit.
Qed.

(** A sequence against the empty one: the main loop does not run and the
    first clean-up loop copies the sequence against gap markers. *)
Lemma BackTracking_alignment_empty (A : pystr) (m : ndarray) :
  populated A [] m ->
  BackTracking_alignment m A [] = Ok (A, replicate (length A) gap_marker).
Proof.
  intros [(H0 & H1 & Hwf) Hcells]. unfold BackTracking_alignment.
  rewrite H0, H1. cbn [length].
  rewrite while_loop_exit
    by (unfold walk_cond; cbn; by destruct (_ >? _)).
  cbn [bind column_index row_index]. change (Z.of_nat 1 - 1 =? 0) with true.
  cbv iota.
  set (st0 := mk_bt _ _ _ _).
  set (Inv := fun st : bt_state => exists i : nat,
         (i <= length A)%nat /\
         st = mk_bt (Z.of_nat i) 0 (drop i A)
                (replicate (length A - i) gap_marker)).
  destruct (while_loop_total rows_left (move_up A) Inv
              (fun st => Z.to_nat (row_index st)))
    with (fuel := drain_fuel A (Z.of_nat (S (length A)) - 1)) (s := st0)
    as (st1 & -> & (i & Hi & ->) & Hexit).
  - intros st (i & Hi & ->) Hcond. unfold rows_left in Hcond. cbn in Hcond.
    apply negb_true_iff, Z.eqb_neq in Hcond.
    destruct i as [|i]; [lia|].
    rewrite move_up_nat by lia. eexists; split; [done|]. split.
    + exists i. split; [lia|]. rewrite (drop_symbol A i) by lia.
      by replace (length A - i)%nat with (S (length A - S i)) by lia.
    + cbn. lia.
  - exists (length A). split; [done|]. subst st0.
    rewrite drop_all, Nat.sub_diag. f_equal. lia.
  - unfold drain_fuel. subst st0. cbn. lia.
  - unfold rows_left in Hexit. cbn in Hexit.
    apply negb_false_iff, Z.eqb_eq in Hexit.
    assert (i = O) as -> by lia.
    cbn [bind seq_one_final seq_two_final]. by rewrite drop_0, Nat.sub_0_r.
Qed.

(** Whatever the matrix, the loops of [BackTracking] prepend to both
    accumulators at once. *)
Lemma BackTracking_alignment_lengths (matx : ndarray) (seq1 seq2 a1 a2 : pystr) :
  BackTracking_alignment matx seq1 seq2 = Ok (a1, a2) -> length a1 = length a2.
Proof.
  set (Inv := fun st : bt_state =>
                length (seq_one_final st) = length (seq_two_final st)).
  assert (Hup : forall st st', Inv st -> move_up seq1 st = Ok st' -> Inv st').
  { intros st st' Hst (a & _ & [= <-])%bind_Ok_inv. unfold Inv in *. cbn. lia. }
  assert (Hleft : forall st st', Inv st -> move_left seq2 st = Ok st' -> Inv st').
  { intros st st' Hst (a & _ & [= <-])%bind_Ok_inv. unfold Inv in *. cbn. lia. }
  assert (Hdiag : forall st st', Inv st ->
            move_diagonal seq1 seq2 st = Ok st' -> Inv st').
  { intros st st' Hst (a & _ & (b & _ & [= <-])%bind_Ok_inv)%bind_Ok_inv.
    unfold Inv in *. cbn. lia. }
  unfold BackTracking_alignment.
  intros (st1 & Hwalk & (st2 & Hdrain & [= <- <-])%bind_Ok_inv)%bind_Ok_inv.
  apply (while_loop_inv walk_cond _ Inv) in Hwalk as [Hst1 _]; [| |done].
  - change (Inv st2). repeat case_match.
    + apply (while_loop_inv rows_left _ Inv) in Hdrain as [? _]; eauto.
    + apply (while_loop_inv columns_left _ Inv) in Hdrain as [? _]; eauto.
    + by injection Hdrain as <-.
  - intros st st' Hst _. unfold walk_body.
    intros ([[d u] l] & _ & Hmove)%bind_Ok_inv. repeat case_match; eauto.
Qed.

(** ** The result of [PopulateMatrix] *)

Lemma PopulateMatrix_render (seq1 seq2 a1 a2 : pystr) (matx m : ndarray)
    (score : pyobj) :
  populate (Z.of_nat (S (length seq1))) (Z.of_nat (S (length seq2)))
    seq1 seq2 matx = Ok m ->
  BackTracking_alignment m seq1 seq2 = Ok (a1, a2) ->
  getitem m (-1) (-1) = Ok score ->
  PopulateMatrix (Z.of_nat (S (length seq1))) (Z.of_nat (S (length seq2)))
    seq1 seq2 matx = Ok (render a1 a2 score).
Proof.
  intros Hm Ha Hs. unfold PopulateMatrix. rewrite Hm. cbn [bind].
  unfold BackTracking. by rewrite Ha, Hs.
Qed.

(** C3.  Aligning a sequence [A] (non-empty or not) against itself: both
    aligned outputs are [A] itself, the score in the final cell is the
    length of [A], and [PopulateMatrix] returns ["A A len(A)"]. *)
Theorem align_self (A : pystr) (matx : ndarray) :
  matching_dims matx A A ->
  exists m : ndarray,
    populate (Z.of_nat (S (length A))) (Z.of_nat (S (length A))) A A matx = Ok m /\
    BackTracking_alignment m A A = Ok (A, A) /\
    getitem m (-1) (-1) = Ok (PyInt (Z.of_nat (length A))) /\
    PopulateMatrix (Z.of_nat (S (length A))) (Z.of_nat (S (length A))) A A matx
      = Ok (A ++ " "%char :: A ++ " "%char :: str_of_int (Z.of_nat (length A))).
Proof.
  intros Hd. destruct (populate_populated A A matx Hd) as (m & Hm & Hp).
  pose proof (BackTracking_alignment_self A m Hp) as Ha.
  pose proof (populated_last A A m Hp) as Hs. rewrite nw_diag in Hs.
  exists m. repeat split; try done.
  by apply (PopulateMatrix_render A A A A matx m (PyInt _)).
Qed.

(** C3 on "GATTACA". *)
Lemma align_self_witness :
  let A := list_ascii_of_string "GATTACA" in
  matching_dims (np_full 8 8 PyNone) A A /\
  ParserFile_row A A = Ok (list_ascii_of_string "GATTACA GATTACA 7").
Proof.
  intros A.
  assert (Hd : matching_dims (np_full 8 8 PyNone) A A)
    by (repeat split; reflexivity).
  split; [exact Hd|].
  destruct (align_self A (np_full 8 8 PyNone) Hd) as (m & _ & _ & _ & Hr).
  exact Hr.
Defined.

(** C6.  Aligning a sequence [A] against the empty sequence: the first
    output is [A], the second is [len(A)] gap markers, and the score is
    [-2 * len(A)]. *)
Theorem align_empty (A : pystr) (matx : ndarray) :
  matching_dims matx A [] ->
  exists m : ndarray,
    populate (Z.of_nat (S (length A))) 1 A [] matx = Ok m /\
    BackTracking_alignment m A [] = Ok (A, replicate (length A) gap_marker) /\
    getitem m (-1) (-1) = Ok (PyInt (-2 * Z.of_nat (length A))) /\
    PopulateMatrix (Z.of_nat (S (length A))) 1 A [] matx
      = Ok (A ++ " "%char :: replicate (length A) gap_marker
              ++ " "%char :: str_of_int (-2 * Z.of_nat (length A))).
Proof.
  intros Hd. destruct (populate_populated A [] matx Hd) as (m & Hm & Hp).
  pose proof (BackTracking_alignment_empty A m Hp) as Ha.
  pose proof (populated_last A [] m Hp) as Hs.
  rewrite (nw_0_r A [] (length A)
             : nw A [] (length A) (length (@nil ascii)) = -2 * _) in Hs.
  exists m. repeat split; try done.
  by apply (PopulateMatrix_render A [] A _ matx m (PyInt _)).
Qed.

(** C6 on "ACGT". *)
Lemma align_empty_witness :
  let A := list_ascii_of_string "ACGT" in
  matching_dims (np_full 5 1 PyNone) A [] /\
  ParserFile_row A [] = Ok (list_ascii_of_string "ACGT ---- -8").
Proof.
  intros A.
  assert (Hd : matching_dims (np_full 5 1 PyNone) A [])
    by (repeat split; reflexivity).
  split; [exact Hd|].
  destruct (align_empty A (np_full 5 1 PyNone) Hd) as (m & _ & _ & _ & Hr).
  exact Hr.
Defined.

(** C7.  The two aligned outputs of [BackTracking] have the same length:
    on any matrix whenever it returns, and it does return on the matrix
    that [PopulateMatrix] built. *)
Theorem aligned_lengths_equal (seq1 seq2 : pystr) (matx : ndarray) :
  (forall a1 a2 : pystr,
     BackTracking_alignment matx seq1 seq2 = Ok (a1, a2) ->
     length a1 = length a2) /\
  (matching_dims matx seq1 seq2 ->
   exists (m : ndarray) (a1 a2 : pystr),
     populate (Z.of_nat (S (length seq1))) (Z.of_nat (S (length seq2)))
       seq1 seq2 matx = Ok m /\
     BackTracking_alignment m seq1 seq2 = Ok (a1, a2) /\
     length a1 = length a2).
Proof.
  split.
  - intros a1 a2. apply BackTracking_alignment_lengths.
  - intros Hd. destruct (populate_populated seq1 seq2 matx Hd) as (m & Hm & Hp).
    destruct (BackTracking_alignment_populated seq1 seq2 m Hp)
      as (a1 & a2 & Ha & Hlen & _).
    by exists m, a1, a2.
Qed.

(** C7 on "AAAC" against "AC". *)
Lemma aligned_lengths_equal_witness :
  let seq1 := list_ascii_of_string "AAAC" in
  let seq2 := list_ascii_of_string "AC" in
  matching_dims (np_full 5 3 PyNone) seq1 seq2 /\
  exists (m : ndarray) (a1 a2 : pystr),
    populate 5 3 seq1 seq2 (np_full 5 3 PyNone) = Ok m /\
    BackTracking_alignment m seq1 seq2 = Ok (a1, a2) /\
    length a1 = length a2.
Proof.
  intros seq1 seq2.
  assert (Hd : matching_dims (np_full 5 3 PyNone) seq1 seq2)
    by (repeat split; reflexivity).
  split; [exact Hd|].
  exact (proj2 (aligned_lengths_equal seq1 seq2 (np_full 5 3 PyNone)) Hd).
Defined.

(** C8.  On every pair of sequences, empty ones included, and every matrix
    of matching dimensions, [PopulateMatrix] raises nothing: the loops fill
    the matrix, [BackTracking] produces its two outputs and the result is
    returned.  With both sequences empty the matrix is 1x1, the score is 0
    and both outputs are empty. *)
Theorem PopulateMatrix_no_exception (seq1 seq2 : pystr) (matx : ndarray) :
  matching_dims matx seq1 seq2 ->
  (exists (m : ndarray) (a1 a2 : pystr) (score : Z),
     populate (Z.of_nat (S (length seq1))) (Z.of_nat (S (length seq2)))
       seq1 seq2 matx = Ok m /\
     BackTracking_alignment m seq1 seq2 = Ok (a1, a2) /\
     getitem m (-1) (-1) = Ok (PyInt score) /\
     PopulateMatrix (Z.of_nat (S (length seq1))) (Z.of_nat (S (length seq2)))
       seq1 seq2 matx = Ok (render a1 a2 (PyInt score))) /\
  (seq1 = [] -> seq2 = [] ->
   exists m : ndarray,
     populate 1 1 [] [] matx = Ok m /\
     shape0 m = 1%nat /\ shape1 m = 1%nat /\
     getitem m (-1) (-1) = Ok (PyInt 0) /\
     BackTracking_alignment m [] [] = Ok ([], []) /\
     PopulateMatrix 1 1 [] [] matx = Ok (list_ascii_of_string "  0")).
Proof.
  intros Hd. split.
  - destruct (populate_populated seq1 seq2 matx Hd) as (m & Hm & Hp).
    destruct (BackTracking_alignment_populated seq1 seq2 m Hp)
      as (a1 & a2 & Ha & _).
    pose proof (populated_last seq1 seq2 m Hp) as Hs.
    exists m, a1, a2, (nw seq1 seq2 (length seq1) (length seq2)).
    repeat split; try done.
    by apply (PopulateMatrix_render seq1 seq2 a1 a2 matx m (PyInt _)).
  - intros -> ->.
    destruct (populate_populated [] [] matx Hd) as (m & Hm & Hp).
    pose proof (BackTracking_alignment_empty [] m Hp) as Ha.
    pose proof (populated_last [] [] m Hp) as Hs.
    destruct Hp as [(H0 & H1 & _) _].
    exists m. repeat split; try done.
    by apply (PopulateMatrix_render [] [] [] [] matx m (PyInt 0)).
Qed.

(** C8 on the two empty sequences. *)
Lemma PopulateMatrix_no_exception_witness :
  matching_dims (np_full 1 1 PyNone) [] [] /\
  PopulateMatrix 1 1 [] [] (np_full 1 1 PyNone)
    = Ok (list_ascii_of_string "  0").
Proof.
  assert (Hd : matching_dims (np_full 1 1 PyNone) [] [])
    by (repeat split; reflexivity).
  split; [exact Hd|].
  destruct (proj2 (PopulateMatrix_no_exception [] [] (np_full 1 1 PyNone) Hd)
              eq_refl eq_refl) as (m & _ & _ & _ & _ & _ & Hr).
  exact Hr.
Defined.

(** C9.  The string that [BackTracking] returns on the populated matrix is
    the first aligned output, one space, the second aligned output, one
    space, and the decimal numeral of the integer held in the final cell
    [(len1, len2)] of the matrix. *)
Theorem BackTracking_rendering (seq1 seq2 : pystr) (matx : ndarray) :
  matching_dims matx seq1 seq2 ->
  exists (m : ndarray) (a1 a2 : pystr) (score : Z),
    populate (Z.of_nat (S (length seq1))) (Z.of_nat (S (length seq2)))
      seq1 seq2 matx = Ok m /\
    BackTracking_alignment m seq1 seq2 = Ok (a1, a2) /\
    getitem m (Z.of_nat (length seq1)) (Z.of_nat (length seq2))
      = Ok (PyInt score) /\
    BackTracking m seq1 seq2
      = Ok (a1 ++ " "%char :: a2 ++ " "%char :: str_of_int score) /\
    int_of_str (str_of_int score) = Some score.
Proof.
  intros Hd. destruct (populate_populated seq1 seq2 matx Hd) as (m & Hm & Hp).
  destruct (BackTracking_alignment_populated seq1 seq2 m Hp)
    as (a1 & a2 & Ha & _).
  pose proof (populated_last seq1 seq2 m Hp) as Hs.
  exists m, a1, a2, (nw seq1 seq2 (length seq1) (length seq2)).
  split; [done|]. split; [done|]. split; [by apply Hp|]. split.
  - unfold BackTracking. by rewrite Ha, Hs.
  - apply str_of_int_read_back.
Qed.

(** C9 on "ACGT" against the empty sequence, where the score is negative. *)
Lemma BackTracking_rendering_witness :
  let seq1 := list_ascii_of_string "ACGT" in
  matching_dims (np_full 5 1 PyNone) seq1 [] /\
  exists (m : ndarray) (a1 a2 : pystr) (score : Z),
    populate 5 1 seq1 [] (np_full 5 1 PyNone) = Ok m /\
    getitem m 4 0 = Ok (PyInt score) /\
    BackTracking m seq1 []
      = Ok (a1 ++ " "%char :: a2 ++ " "%char :: str_of_int score).
Proof.
  intros seq1.
  assert (Hd : matching_dims (np_full 5 1 PyNone) seq1 [])
    by (repeat split; reflexivity).
  split; [exact Hd|].
  destruct (BackTracking_rendering seq1 [] (np_full 5 1 PyNone) Hd)
    as (m & a1 & a2 & score & Hm & _ & Hs & Hr & _).
  exists m, a1, a2, score. repeat split; assumption.
Defined.

(** C10.  When neither input holds a ['-'], deleting every ['-'] from the
    first aligned output gives back the first sequence and deleting every
    ['-'] from the second gives back the second: each output is its
    sequence with gap markers put in. *)
Theorem strip_gaps_alignment (seq1 seq2 : pystr) (matx : ndarray) :
  matching_dims matx seq1 seq2 ->
  ~ In gap_marker seq1 ->
  ~ In gap_marker seq2 ->
  exists (m : ndarray) (a1 a2 : pystr),
    populate (Z.of_nat (S (length seq1))) (Z.of_nat (S (length seq2)))
      seq1 seq2 matx = Ok m /\
    BackTracking_alignment m seq1 seq2 = Ok (a1, a2) /\
    gapped seq1 a1 /\ gapped seq2 a2 /\
    strip_gaps a1 = seq1 /\ strip_gaps a2 = seq2.
Proof.
  intros Hd Hno1 Hno2.
  destruct (populate_populated seq1 seq2 matx Hd) as (m & Hm & Hp).
  destruct (BackTracking_alignment_populated seq1 seq2 m Hp)
    as (a1 & a2 & Ha & _ & Hg1 & Hg2).
  exists m, a1, a2. repeat split; try done; by apply gapped_strip.
Qed.

(** C10 on "AAAC" against "AC". *)
Lemma strip_gaps_alignment_witness :
  let seq1 := list_ascii_of_string "AAAC" in
  let seq2 := list_ascii_of_string "AC" in
  matching_dims (np_full 5 3 PyNone) seq1 seq2 /\
  ~ In gap_marker seq1 /\ ~ In gap_marker seq2 /\
  exists (m : ndarray) (a1 a2 : pystr),
    populate 5 3 seq1 seq2 (np_full 5 3 PyNone) = Ok m /\
    BackTracking_alignment m seq1 seq2 = Ok (a1, a2) /\
    strip_gaps a1 = seq1 /\ strip_gaps a2 = seq2.
Proof.
  intros seq1 seq2.
  assert (Hd : matching_dims (np_full 5 3 PyNone) seq1 seq2)
    by (repeat split; reflexivity).
  assert (Hno1 : ~ In gap_marker seq1)
    by (simpl; intros H; repeat destruct H as [H|H]; discriminate || exact H).
  assert (Hno2 : ~ In gap_marker seq2)
    by (simpl; intros H; repeat destruct H as [H|H]; discriminate || exact H).
  split; [exact Hd|]. split; [exact Hno1|]. split; [exact Hno2|].
  destruct (strip_gaps_alignment seq1 seq2 (np_full 5 3 PyNone) Hd Hno1 Hno2)
    as (m & a1 & a2 & Hm & Ha & _ & _ & Hs1 & Hs2).
  exists m, a1, a2. repeat split; assumption.
Defined.

(** ** The scenarios of the repository's description, run on the model *)

Example scenario_AC_AC :
  ParserFile_row (list_ascii_of_string "AC") (list_ascii_of_string "AC")
  = Ok (list_ascii_of_string "AC AC 2").
Proof. reflexivity. Qed.

Example scenario_A_G :
  ParserFile_row (list_ascii_of_string "A") (list_ascii_of_string "G")
  = Ok (list_ascii_of_string "A G -1").
Proof. reflexivity. Qed.

Example scenario_GATTACA_GCATGCU :
  ParserFile_row (list_ascii_of_string "GATTACA") (list_ascii_of_string "GCATGCU")
  = Ok (list_ascii_of_string "GATTACA GCATGCU -1").
Proof. reflexivity. Qed.

(** ** The alignment that [BackTracking] follows *)

Lemma alignment_score_app (cols cols' : list column) :
  alignment_score (cols ++ cols') = alignment_score cols + alignment_score cols'.
Proof. induction cols as [|c cols IH]; simpl; [done|]. rewrite IH. lia. Qed.

Lemma first_symbols_app (cols cols' : list column) :
  first_symbols (cols ++ cols') = first_symbols cols ++ first_symbols cols'.
Proof. apply flat_map_app. Qed.

Lemma second_symbols_app (cols cols' : list column) :
  second_symbols (cols ++ cols') = second_symbols cols ++ second_symbols cols'.
Proof. apply flat_map_app. Qed.

Lemma symbol_app_l (seq rest : pystr) (i : nat) :
  (i < length seq)%nat -> symbol (seq ++ rest) (S i) = symbol seq (S i).
Proof.
  intros Hi. unfold symbol. rewrite Nat.sub_succ, Nat.sub_0_r.
  by apply app_nth1.
Qed.

Lemma symbol_last (seq : pystr) (a : ascii) :
  symbol (seq ++ [a]) (S (length seq)) = a.
Proof.
  unfold symbol. rewrite Nat.sub_succ, Nat.sub_0_r.
  rewrite app_nth2 by lia. by rewrite Nat.sub_diag.
Qed.

(** A cell depends only on the two prefixes it scores. *)
Lemma nw_app (seq1 rest1 seq2 rest2 : pystr) (i j : nat) :
  (i <= length seq1)%nat -> (j <= length seq2)%nat ->
  nw (seq1 ++ rest1) (seq2 ++ rest2) i j = nw seq1 seq2 i j.
Proof.
  revert j. induction i as [|i IHi]; intros j Hi Hj.
  - by rewrite !nw_0_l.
  - induction j as [|j IHj].
    + by rewrite !nw_0_r.
    + rewrite !nw_S_S, IHj, !IHi by lia.
      by rewrite !symbol_app_l by lia.
Qed.

Lemma nw_step_diagonal (seq1 seq2 : pystr) (i j : nat) :
  nw seq1 seq2 i j + pair_score (symbol seq1 (S i)) (symbol seq2 (S j))
  <= nw seq1 seq2 (S i) (S j).
Proof. rewrite nw_S_S. unfold max3. lia. Qed.

Lemma nw_step_up (seq1 seq2 : pystr) (i j : nat) :
  nw seq1 seq2 i j + gap_penalty <= nw seq1 seq2 (S i) j.
Proof.
  destruct j as [|j].
  - rewrite !nw_0_r. unfold gap_penalty. lia.
  - rewrite nw_S_S. unfold max3. lia.
Qed.

Lemma nw_step_left (seq1 seq2 : pystr) (i j : nat) :
  nw seq1 seq2 i j + gap_penalty <= nw seq1 seq2 i (S j).
Proof.
  destruct i as [|i].
  - rewrite !nw_0_l. unfold gap_penalty. lia.
  - rewrite nw_S_S. unfold max3. lia.
Qed.

(** No alignment scores more than the cell of the two sequences it uses
    up. *)
Lemma alignment_score_le_nw (cols : list column) :
  alignment_score cols
  <= nw (first_symbols cols) (second_symbols cols)
        (length (first_symbols cols)) (length (second_symbols cols)).
Proof.
  induction cols as [|c cols IH] using rev_ind; [done|].
  rewrite alignment_score_app, first_symbols_app, second_symbols_app.
  rewrite !length_app.
  set (s1 := first_symbols cols) in *. set (s2 := second_symbols cols) in *.
  destruct c as [a b|a|b]; cbn [alignment_score first_symbols second_symbols
    flat_map fold_right column_score app length]; rewrite ?app_nil_r.
  - rewrite !Nat.add_1_r.
    pose proof (nw_step_diagonal (s1 ++ [a]) (s2 ++ [b]) (length s1) (length s2))
      as Hstep.
    rewrite !symbol_last, nw_app in Hstep by lia. lia.
  - rewrite Nat.add_1_r, Nat.add_0_r.
    pose proof (nw_step_up (s1 ++ [a]) (s2 ++ []) (length s1) (length s2))
      as Hstep.
    rewrite nw_app in Hstep by lia. rewrite app_nil_r in Hstep. lia.
  - rewrite Nat.add_1_r, Nat.add_0_r.
    pose proof (nw_step_left (s1 ++ []) (s2 ++ [b]) (length s1) (length s2))
      as Hstep.
    rewrite nw_app in Hstep by lia. rewrite app_nil_r in Hstep. lia.
Qed.

Section Traced.
Variables seq1 seq2 : pystr.
Variable m : ndarray.
Hypothesis Hm : populated seq1 seq2 m.

(** One turn of the main loop takes a move whose score is the cell's. *)
Lemma walk_body_traced (st : bt_state) :
  traced_invariant seq1 seq2 st -> walk_cond st = true ->
  exists st', walk_body m seq1 seq2 st = Ok st'
              /\ traced_invariant seq1 seq2 st'
              /\ (walk_fuel st' < walk_fuel st)%nat.
Proof.
  intros (i & j & cols & Hr & Hc & Hi & Hj & Ha1 & Ha2 & Hs1 & Hs2 & Hsc) Hcond.
  destruct st as [r c a1 a2]. unfold walk_cond in Hcond.
  cbn [row_index column_index seq_one_final seq_two_final] in *. subst r c a1 a2.
  apply andb_prop in Hcond as [Hr%Z.gtb_lt Hc%Z.gtb_lt].
  destruct i as [|i]; [lia|]. destruct j as [|j]; [lia|].
  unfold walk_body. rewrite (candidate_scores_nat seq1 seq2 m Hm) by lia.
  cbn [bind].
  pose proof (drop_symbol seq1 i ltac:(lia)) as Hd1.
  pose proof (drop_symbol seq2 j ltac:(lia)) as Hd2.
  set (a := symbol seq1 (S i)) in *. set (b := symbol seq2 (S j)) in *.
  assert (Hdiag : forall st',
            move_diagonal seq1 seq2
              (mk_bt (Z.of_nat (S i)) (Z.of_nat (S j)) (first_row cols)
                 (second_row cols)) = Ok st' ->
            nw seq1 seq2 i j + pair_score a b = nw seq1 seq2 (S i) (S j) ->
            traced_invariant seq1 seq2 st' /\
            (walk_fuel st' < Z.to_nat (Z.of_nat (S i) + Z.of_nat (S j)))%nat).
  { intros st'. rewrite move_diagonal_nat by lia. intros [= <-] Hmax. split.
    - exists i, j, (Pair a b :: cols).
      change (first_symbols (Pair a b :: cols)) with (a :: first_symbols cols).
      change (second_symbols (Pair a b :: cols)) with (b :: second_symbols cols).
      change (alignment_score (Pair a b :: cols))
        with (pair_score a b + alignment_score cols).
      cbn [row_index column_index seq_one_final seq_two_final].
      rewrite Hd1, Hd2, Hs1, Hs2.
      repeat split; try done; lia.
    - unfold walk_fuel. cbn. lia. }
  assert (Hup : forall st',
            move_up seq1
              (mk_bt (Z.of_nat (S i)) (Z.of_nat (S j)) (first_row cols)
                 (second_row cols)) = Ok st' ->
            nw seq1 seq2 i (S j) + -2 = nw seq1 seq2 (S i) (S j) ->
            traced_invariant seq1 seq2 st' /\
            (walk_fuel st' < Z.to_nat (Z.of_nat (S i) + Z.of_nat (S j)))%nat).
  { intros st'. rewrite move_up_nat by lia. intros [= <-] Hmax. split.
    - exists i, (S j), (Del a :: cols).
      change (first_symbols (Del a :: cols)) with (a :: first_symbols cols).
      change (second_symbols (Del a :: cols)) with (second_symbols cols).
      change (alignment_score (Del a :: cols))
        with (gap_penalty + alignment_score cols).
      cbn [row_index column_index seq_one_final seq_two_final].
      rewrite Hd1, Hs1, Hs2.
      unfold gap_penalty. repeat split; try done; lia.
    - unfold walk_fuel. cbn. lia. }
  assert (Hleft : forall st',
            move_left seq2
              (mk_bt (Z.of_nat (S i)) (Z.of_nat (S j)) (first_row cols)
                 (second_row cols)) = Ok st' ->
            nw seq1 seq2 (S i) j + -2 = nw seq1 seq2 (S i) (S j) ->
            traced_invariant seq1 seq2 st' /\
            (walk_fuel st' < Z.to_nat (Z.of_nat (S i) + Z.of_nat (S j)))%nat).
  { intros st'. rewrite move_left_nat by lia. intros [= <-] Hmax. split.
    - exists (S i), j, (Ins b :: cols).
      change (first_symbols (Ins b :: cols)) with (first_symbols cols).
      change (second_symbols (Ins b :: cols)) with (b :: second_symbols cols).
      change (alignment_score (Ins b :: cols))
        with (gap_penalty + alignment_score cols).
      cbn [row_index column_index seq_one_final seq_two_final].
      rewrite Hd2, Hs1, Hs2.
      unfold gap_penalty. repeat split; try done; lia.
    - unfold walk_fuel. cbn. lia. }
  unfold walk_fuel at 2. cbn [row_index column_index].
  pose proof (nw_S_S seq1 seq2 i j) as Hmax. fold a b in Hmax.
  unfold max3, gap_penalty in Hmax.
  destruct (Z.gtb_spec (nw seq1 seq2 i j + pair_score a b)
                       (nw seq1 seq2 i (S j) + -2)) as [Hdu|Hdu];
    destruct (Z.gtb_spec (nw seq1 seq2 i j + pair_score a b)
                         (nw seq1 seq2 (S i) j + -2)) as [Hdl|Hdl];
    cbn [andb]; cbv iota;
    try destruct (Z.gtb_spec (nw seq1 seq2 i (S j) + -2)
                             (nw seq1 seq2 (S i) j + -2)) as [Hul|Hul].
  all: match goal with
       | |- exists st', move_diagonal _ _ _ = _ /\ _ =>
           rewrite move_diagonal_nat by lia; eexists; split; [done|];
           apply Hdiag; [by rewrite move_diagonal_nat by lia | lia]
       | |- exists st', move_up _ _ = _ /\ _ =>
           rewrite move_up_nat by lia; eexists; split; [done|];
           apply Hup; [by rewrite move_up_nat by lia | lia]
       | |- exists st', move_left _ _ = _ /\ _ =>
           rewrite move_left_nat by lia; eexists; split; [done|];
           apply Hleft; [by rewrite move_left_nat by lia | lia]
       end.
Qed.

Lemma move_up_traced (st : bt_state) :
  traced_invariant seq1 seq2 st /\ column_index st = 0 ->
  rows_left st = true ->
  exists st', move_up seq1 st = Ok st'
              /\ (traced_invariant seq1 seq2 st' /\ column_index st' = 0)
              /\ (Z.to_nat (row_index st') < Z.to_nat (row_index st))%nat.
Proof.
  intros [(i & j & cols & Hr & Hc & Hi & Hj & Ha1 & Ha2 & Hs1 & Hs2 & Hsc) Hc0]
    Hcond.
  destruct st as [r c a1 a2]. unfold rows_left in Hcond.
  cbn [row_index column_index seq_one_final seq_two_final] in *. subst r c a1 a2.
  apply negb_true_iff, Z.eqb_neq in Hcond.
  destruct i as [|i]; [lia|]. assert (j = O) as -> by lia.
  pose proof (drop_symbol seq1 i ltac:(lia)) as Hd1.
  rewrite nw_0_r in Hsc. unfold gap_penalty in Hsc.
  rewrite move_up_nat by lia. eexists; split; [done|]. split; [split|].
  - exists i, O, (Del (symbol seq1 (S i)) :: cols).
    change (first_symbols (Del (symbol seq1 (S i)) :: cols))
      with (symbol seq1 (S i) :: first_symbols cols).
    change (second_symbols (Del (symbol seq1 (S i)) :: cols))
      with (second_symbols cols).
    change (alignment_score (Del (symbol seq1 (S i)) :: cols))
      with (gap_penalty + alignment_score cols).
    cbn [row_index column_index seq_one_final seq_two_final].
    rewrite Hd1, Hs1, Hs2, nw_0_r. unfold gap_penalty.
    repeat split; try done; lia.
  - done.
  - cbn. lia.
Qed.

Lemma move_left_traced (st : bt_state) :
  traced_invariant seq1 seq2 st /\ row_index st = 0 ->
  columns_left st = true ->
  exists st', move_left seq2 st = Ok st'
              /\ (traced_invariant seq1 seq2 st' /\ row_index st' = 0)
              /\ (Z.to_nat (column_index st') < Z.to_nat (column_index st))%nat.
Proof.
  intros [(i & j & cols & Hr & Hc & Hi & Hj & Ha1 & Ha2 & Hs1 & Hs2 & Hsc) Hr0]
    Hcond.
  destruct st as [r c a1 a2]. unfold columns_left in Hcond.
  cbn [row_index column_index seq_one_final seq_two_final] in *. subst r c a1 a2.
  apply negb_true_iff, Z.eqb_neq in Hcond.
  destruct j as [|j]; [lia|]. assert (i = O) as -> by lia.
  pose proof (drop_symbol seq2 j ltac:(lia)) as Hd2.
  rewrite nw_0_l in Hsc. unfold gap_penalty in Hsc.
  rewrite move_left_nat by lia. eexists; split; [done|]. split; [split|].
  - exists O, j, (Ins (symbol seq2 (S j)) :: cols).
    change (first_symbols (Ins (symbol seq2 (S j)) :: cols))
      with (first_symbols cols).
    change (second_symbols (Ins (symbol seq2 (S j)) :: cols))
      with (symbol seq2 (S j) :: second_symbols cols).
    change (alignment_score (Ins (symbol seq2 (S j)) :: cols))
      with (gap_penalty + alignment_score cols).
    cbn [row_index column_index seq_one_final seq_two_final].
    rewrite Hd2, Hs1, Hs2, nw_0_l. unfold gap_penalty.
    repeat split; try done; lia.
  - done.
  - cbn. lia.
Qed.

(** [BackTracking] on a populated matrix returns the two rows of an
    alignment of the two sequences whose score is in the final cell. *)
Lemma BackTracking_alignment_traced :
  exists cols : list column,
    BackTracking_alignment m seq1 seq2 = Ok (first_row cols, second_row cols)
    /\ first_symbols cols = seq1 /\ second_symbols cols = seq2
    /\ alignment_score cols = nw seq1 seq2 (length seq1) (length seq2).
Proof.
  unfold BackTracking_alignment.
  destruct Hm as [(H0 & H1 & _) _]. rewrite H0, H1.
  set (st0 := mk_bt _ _ _ _).
  assert (Hst0 : traced_invariant seq1 seq2 st0).
  { exists (length seq1), (length seq2), []. subst st0. cbn.
    rewrite !drop_all. repeat split; try lia; done. }
  destruct (while_loop_total walk_cond (walk_body m seq1 seq2)
              (traced_invariant seq1 seq2) walk_fuel walk_body_traced
              (walk_fuel st0) st0 Hst0 (Nat.le_refl _))
    as (st1 & -> & Hst1 & Hexit).
  cbn [bind].
  assert (exists st2,
    (if column_index st1 =? 0
     then while_loop (drain_fuel seq1 (row_index st1)) rows_left (move_up seq1) st1
     else if row_index st1 =? 0
     then while_loop (drain_fuel seq2 (column_index st1)) columns_left
            (move_left seq2) st1
     else Ok st1) = Ok st2
    /\ traced_invariant seq1 seq2 st2
    /\ row_index st2 = 0 /\ column_index st2 = 0) as (st2 & -> & Hst2 & Hr2 & Hc2).
  { destruct (Z.eqb_spec (column_index st1) 0) as [Hc0|Hc0].
    - destruct (while_loop_total rows_left (move_up seq1)
                  (fun st => traced_invariant seq1 seq2 st /\ column_index st = 0)
                  (fun st => Z.to_nat (row_index st)) move_up_traced)
        with (fuel := drain_fuel seq1 (row_index st1)) (s := st1)
        as (st2 & Hloop & [Hst2 Hc2] & Hexit2).
      + done.
      + unfold drain_fuel. lia.
      + exists st2. repeat split; try done.
        unfold rows_left in Hexit2. by apply negb_false_iff, Z.eqb_eq in Hexit2.
    - assert (Hr0 : row_index st1 = 0).
      { unfold walk_cond in Hexit.
        destruct Hst1 as (i & j & cols & Hr & Hc & _).
        apply andb_false_iff in Hexit as [Hx|Hx];
          apply Z.gtb_ltb, Z.ltb_ge in Hx || idtac; lia. }
      rewrite Hr0. change (0 =? 0) with true. cbv iota.
      destruct (while_loop_total columns_left (move_left seq2)
                  (fun st => traced_invariant seq1 seq2 st /\ row_index st = 0)
                  (fun st => Z.to_nat (column_index st)) move_left_traced)
        with (fuel := drain_fuel seq2 (column_index st1)) (s := st1)
        as (st2 & Hloop & [Hst2 Hr2] & Hexit2).
      + done.
      + unfold drain_fuel. lia.
      + exists st2. repeat split; try done.
        unfold columns_left in Hexit2.
        by apply negb_false_iff, Z.eqb_eq in Hexit2. }
  cbn [bind].
  destruct Hst2 as (i & j & cols & Hr & Hc & _ & _ & Ha1 & Ha2 & Hs1 & Hs2 & Hsc).
  assert (i = O) as -> by lia. assert (j = O) as -> by lia.
  exists cols. rewrite Ha1, Ha2, Hs1, Hs2, !drop_0. repeat split.
  rewrite <- Hsc. cbn. lia.
Qed.
End Traced.

Lemma columns_length (cols : list column) :
  (length (first_symbols cols) <= length cols)%nat /\
  (length (second_symbols cols) <= length cols)%nat /\
  (length cols <= length (first_symbols cols) + length (second_symbols cols))%nat.
Proof.
  induction cols as [|[a b|a|b] cols IH]; simpl; lia.
Qed.

(** X1.  On a matrix of matching dimensions, the two strings that
    [BackTracking] builds are the two rows of an alignment of [seq1] with
    [seq2] (each column a pair of symbols or one symbol against a gap, the
    symbols of each sequence once and in order), and the score of that
    alignment, +1 or -1 for each pair and -2 for each gap, is the integer
    in the final cell that is printed as the score. *)
Theorem reported_score_is_alignment_score (seq1 seq2 : pystr) (matx : ndarray) :
  matching_dims matx seq1 seq2 ->
  exists (m : ndarray) (cols : list column) (score : Z),
    populate (Z.of_nat (S (length seq1))) (Z.of_nat (S (length seq2)))
      seq1 seq2 matx = Ok m /\
    BackTracking_alignment m seq1 seq2 = Ok (first_row cols, second_row cols) /\
    first_symbols cols = seq1 /\ second_symbols cols = seq2 /\
    getitem m (-1) (-1) = Ok (PyInt score) /\
    alignment_score cols = score.
Proof.
  intros Hd. destruct (populate_populated seq1 seq2 matx Hd) as (m & Hm & Hp).
  destruct (BackTracking_alignment_traced seq1 seq2 m Hp)
    as (cols & Ha & Hs1 & Hs2 & Hsc).
  exists m, cols, (nw seq1 seq2 (length seq1) (length seq2)).
  repeat split; try done. by apply populated_last.
Qed.

(** X1 on "AAAC" against "AC". *)
Lemma reported_score_is_alignment_score_witness :
  let seq1 := list_ascii_of_string "AAAC" in
  let seq2 := list_ascii_of_string "AC" in
  matching_dims (np_full 5 3 PyNone) seq1 seq2 /\
  exists (m : ndarray) (cols : list column) (score : Z),
    populate 5 3 seq1 seq2 (np_full 5 3 PyNone) = Ok m /\
    BackTracking_alignment m seq1 seq2 = Ok (first_row cols, second_row cols) /\
    getitem m (-1) (-1) = Ok (PyInt score) /\
    alignment_score cols = score.
Proof.
  intros seq1 seq2.
  assert (Hd : matching_dims (np_full 5 3 PyNone) seq1 seq2)
    by (repeat split; reflexivity).
  split; [exact Hd|].
  destruct (reported_score_is_alignment_score seq1 seq2 _ Hd)
    as (m & cols & score & Hm & Ha & _ & _ & Hs & Hsc).
  exists m, cols, score. repeat split; assumption.
Defined.

(** X2.  The score in the final cell is optimal: no alignment of [seq1]
    with [seq2] scores more. *)
Theorem reported_score_optimal (seq1 seq2 : pystr) (matx : ndarray) :
  matching_dims matx seq1 seq2 ->
  exists (m : ndarray) (score : Z),
    populate (Z.of_nat (S (length seq1))) (Z.of_nat (S (length seq2)))
      seq1 seq2 matx = Ok m /\
    getitem m (-1) (-1) = Ok (PyInt score) /\
    forall cols : list column,
      first_symbols cols = seq1 -> second_symbols cols = seq2 ->
      alignment_score cols <= score.
Proof.
  intros Hd. destruct (populate_populated seq1 seq2 matx Hd) as (m & Hm & Hp).
  exists m, (nw seq1 seq2 (length seq1) (length seq2)).
  split; [done|]. split; [by apply populated_last|].
  intros cols <- <-. apply alignment_score_le_nw.
Qed.

(** X2 on "AC" against "AG": the alignment with two gaps scores less. *)
Lemma reported_score_optimal_witness :
  let seq1 := list_ascii_of_string "AC" in
  let seq2 := list_ascii_of_string "AG" in
  let cols := [Pair "A" "A"; Del "C"; Ins "G"]%char in
  matching_dims (np_full 3 3 PyNone) seq1 seq2 /\
  exists (m : ndarray) (score : Z),
    populate 3 3 seq1 seq2 (np_full 3 3 PyNone) = Ok m /\
    getitem m (-1) (-1) = Ok (PyInt score) /\
    alignment_score cols <= score.
Proof.
  intros seq1 seq2 cols.
  assert (Hd : matching_dims (np_full 3 3 PyNone) seq1 seq2)
    by (repeat split; reflexivity).
  split; [exact Hd|].
  destruct (reported_score_optimal seq1 seq2 _ Hd) as (m & score & Hm & Hs & Hopt).
  exists m, score. split; [exact Hm|]. split; [exact Hs|].
  apply Hopt; reflexivity.
Defined.

(** X3.  Each aligned output is at least as long as the longer input and
    at most as long as the two inputs together. *)
Theorem aligned_length_bounds (seq1 seq2 : pystr) (matx : ndarray) :
  matching_dims matx seq1 seq2 ->
  exists (m : ndarray) (a1 a2 : pystr),
    populate (Z.of_nat (S (length seq1))) (Z.of_nat (S (length seq2)))
      seq1 seq2 matx = Ok m /\
    BackTracking_alignment m seq1 seq2 = Ok (a1, a2) /\
    (Nat.max (length seq1) (length seq2) <= length a1
       <= length seq1 + length seq2)%nat /\
    length a2 = length a1.
Proof.
  intros Hd. destruct (populate_populated seq1 seq2 matx Hd) as (m & Hm & Hp).
  destruct (BackTracking_alignment_traced seq1 seq2 m Hp)
    as (cols & Ha & Hs1 & Hs2 & _).
  exists m, (first_row cols), (second_row cols).
  split; [done|]. split; [done|].
  unfold first_row, second_row. rewrite !length_map.
  pose proof (columns_length cols) as (H1 & H2 & H3).
  rewrite Hs1, Hs2 in *. split; [lia | done].
Qed.

(** X3 on "AAAC" against "AC". *)
Lemma aligned_length_bounds_witness :
  let seq1 := list_ascii_of_string "AAAC" in
  let seq2 := list_ascii_of_string "AC" in
  matching_dims (np_full 5 3 PyNone) seq1 seq2 /\
  exists (m : ndarray) (a1 a2 : pystr),
    populate 5 3 seq1 seq2 (np_full 5 3 PyNone) = Ok m /\
    BackTracking_alignment m seq1 seq2 = Ok (a1, a2) /\
    (4 <= length a1 <= 6)%nat.
Proof.
  intros seq1 seq2.
  assert (Hd : matching_dims (np_full 5 3 PyNone) seq1 seq2)
    by (repeat split; reflexivity).
  split; [exact Hd|].
  destruct (aligned_length_bounds seq1 seq2 _ Hd)
    as (m & a1 & a2 & Hm & Ha & Hlen & _).
  exists m, a1, a2. split; [exact Hm|]. split; [exact Ha|]. exact Hlen.
Defined.

(** ** Bounds on the score *)

Lemma nw_bounds (seq1 seq2 : pystr) (i j : nat) :
  - Z.min (Z.of_nat i) (Z.of_nat j) - 2 * Z.abs (Z.of_nat i - Z.of_nat j)
  <= nw seq1 seq2 i j
  <= Z.min (Z.of_nat i) (Z.of_nat j) - 2 * Z.abs (Z.of_nat i - Z.of_nat j).
Proof.
  revert j. induction i as [|i IHi]; intros j.
  - rewrite nw_0_l. unfold gap_penalty. lia.
  - induction j as [|j IHj].
    + rewrite nw_0_r. unfold gap_penalty. lia.
    + rewrite nw_S_S. unfold max3, gap_penalty.
      pose proof (IHi j). pose proof (IHi (S j)).
      assert (-1 <= pair_score (symbol seq1 (S i)) (symbol seq2 (S j)) <= 1)
        by (unfold pair_score; destruct (Ascii.eqb _ _); lia).
      lia.
Qed.

(** X4.  With [n] the length of the shorter sequence and [d] the difference
    of the two lengths, the score in the final cell lies between
    [-n - 2d] (every pair a mismatch) and [n - 2d] (every pair a match). *)
Theorem final_score_bounds (seq1 seq2 : pystr) (matx : ndarray) :
  matching_dims matx seq1 seq2 ->
  exists (m : ndarray) (score : Z),
    populate (Z.of_nat (S (length seq1))) (Z.of_nat (S (length seq2)))
      seq1 seq2 matx = Ok m /\
    getitem m (-1) (-1) = Ok (PyInt score) /\
    let n := Z.min (Z.of_nat (length seq1)) (Z.of_nat (length seq2)) in
    let d := Z.abs (Z.of_nat (length seq1) - Z.of_nat (length seq2)) in
    - n - 2 * d <= score <= n - 2 * d.
Proof.
  intros Hd. destruct (populate_populated seq1 seq2 matx Hd) as (m & Hm & Hp).
  exists m, (nw seq1 seq2 (length seq1) (length seq2)).
  split; [done|]. split; [by apply populated_last|]. apply nw_bounds.
Qed.

(** X4 on "GATTACA" against "GCA". *)
Lemma final_score_bounds_witness :
  let seq1 := list_ascii_of_string "GATTACA" in
  let seq2 := list_ascii_of_string "GCA" in
  matching_dims (np_full 8 4 PyNone) seq1 seq2 /\
  exists (m : ndarray) (score : Z),
    populate 8 4 seq1 seq2 (np_full 8 4 PyNone) = Ok m /\
    getitem m (-1) (-1) = Ok (PyInt score) /\
    -11 <= score <= -5.
Proof.
  intros seq1 seq2.
  assert (Hd : matching_dims (np_full 8 4 PyNone) seq1 seq2)
    by (repeat split; reflexivity).
  split; [exact Hd|].
  destruct (final_score_bounds seq1 seq2 _ Hd) as (m & score & Hm & Hs & Hb).
  exists m, score. split; [exact Hm|]. split; [exact Hs|]. exact Hb.
Defined.

(** ** The empty sequence first *)

(** The empty sequence against [B]: the main loop does not run and the
    second clean-up loop copies [B] against gap markers. *)
Lemma BackTracking_alignment_empty_first (B : pystr) (m : ndarray) :
  populated [] B m ->
  BackTracking_alignment m [] B = Ok (replicate (length B) gap_marker, B).
Proof.
  intros [(H0 & H1 & Hwf) Hcells]. unfold BackTracking_alignment.
  rewrite H0, H1. cbn [length].
  rewrite while_loop_exit by reflexivity.
  cbn [bind column_index row_index].
  destruct B as [|b B].
  { cbn [length]. change (Z.of_nat 1 - 1 =? 0) with true. cbv iota.
    by rewrite while_loop_exit. }
  set (n := length (b :: B)).
  replace (Z.of_nat (S n) - 1 =? 0) with false
    by (symmetry; apply Z.eqb_neq; subst n; cbn [length]; lia).
  change (Z.of_nat 1 - 1 =? 0) with true. cbv iota.
  set (st0 := mk_bt _ _ _ _).
  set (Inv := fun st : bt_state => exists j : nat,
         (j <= n)%nat /\
         st = mk_bt 0 (Z.of_nat j) (replicate (n - j) gap_marker)
                (drop j (b :: B))).
  destruct (while_loop_total columns_left (move_left (b :: B)) Inv
              (fun st => Z.to_nat (column_index st)))
    with (fuel := drain_fuel (b :: B) (Z.of_nat (S n) - 1)) (s := st0)
    as (st1 & -> & (j & Hj & ->) & Hexit).
  - intros st (j & Hj & ->) Hcond. unfold columns_left in Hcond. cbn in Hcond.
    apply negb_true_iff, Z.eqb_neq in Hcond.
    destruct j as [|j]; [lia|].
    rewrite move_left_nat by (fold n; lia). eexists; split; [done|]. split.
    + exists j. split; [lia|]. rewrite (drop_symbol (b :: B) j) by (fold n; lia).
      by replace (n - j)%nat with (S (n - S j)) by lia.
    + cbn. lia.
  - exists n. split; [done|]. subst st0.
    rewrite Nat.sub_diag. subst n. rewrite drop_all. f_equal. lia.
  - unfold drain_fuel. subst st0. cbn [column_index]. lia.
  - unfold columns_left in Hexit. cbn in Hexit.
    apply negb_false_iff, Z.eqb_eq in Hexit.
    assert (j = O) as -> by lia.
    cbn [bind seq_one_final seq_two_final]. by rewrite drop_0, Nat.sub_0_r.
Qed.

(** X5.  Aligning the empty sequence against a sequence [B]: the first
    output is [len(B)] gap markers, the second is [B], and the score is
    [-2 * len(B)]. *)
Theorem align_empty_first (B : pystr) (matx : ndarray) :
  matching_dims matx [] B ->
  exists m : ndarray,
    populate 1 (Z.of_nat (S (length B))) [] B matx = Ok m /\
    BackTracking_alignment m [] B = Ok (replicate (length B) gap_marker, B) /\
    getitem m (-1) (-1) = Ok (PyInt (-2 * Z.of_nat (length B))) /\
    PopulateMatrix 1 (Z.of_nat (S (length B))) [] B matx
      = Ok (replicate (length B) gap_marker ++ " "%char :: B
              ++ " "%char :: str_of_int (-2 * Z.of_nat (length B))).
Proof.
  intros Hd. destruct (populate_populated [] B matx Hd) as (m & Hm & Hp).
  pose proof (BackTracking_alignment_empty_first B m Hp) as Ha.
  pose proof (populated_last [] B m Hp) as Hs.
  exists m. repeat split; try done.
  by apply (PopulateMatrix_render [] B _ B matx m (PyInt _)).
Qed.

(** X5 on "ACGT". *)
Lemma align_empty_first_witness :
  let B := list_ascii_of_string "ACGT" in
  matching_dims (np_full 1 5 PyNone) [] B /\
  ParserFile_row [] B = Ok (list_ascii_of_string "---- ACGT -8").
Proof.
  intros B.
  assert (Hd : matching_dims (np_full 1 5 PyNone) [] B)
    by (repeat split; reflexivity).
  split; [exact Hd|].
  destruct (align_empty_first B (np_full 1 5 PyNone) Hd) as (m & _ & _ & _ & Hr).
  exact Hr.
Defined.

(** ** Matrices of the wrong shape *)

Lemma norm_index_out (n : nat) (i : Z) :
  Z.of_nat n <= i -> norm_index n i = Raise IndexError.
Proof.
  intros Hi. unfold norm_index.
  destruct (Z.ltb_spec i 0); [lia|].
  destruct (Z.ltb_spec i (Z.of_nat n)); [lia|]. by rewrite andb_false_r.
Qed.

Lemma str_getitem_out (seq : pystr) (i : Z) :
  Z.of_nat (length seq) <= i -> str_getitem seq i = Raise IndexError.
Proof. intros Hi. unfold str_getitem. by rewrite norm_index_out. Qed.

Lemma setitem_out (m : ndarray) (i j : nat) (v : pyobj) :
  (shape0 m <= i)%nat \/ (shape1 m <= j)%nat ->
  setitem m (Z.of_nat i) (Z.of_nat j) v = Raise IndexError.
Proof.
  intros Hout. unfold setitem.
  destruct (Nat.lt_ge_cases i (shape0 m)) as [Hi|Hi].
  - rewrite (norm_index_nat _ _ Hi). cbn [bind].
    rewrite norm_index_out by lia. done.
  - rewrite norm_index_out by lia. done.
Qed.

(** Reading a cell raises nothing but [IndexError]. *)
Lemma getitem_total (m : ndarray) (i j : Z) :
  (exists v, getitem m i j = Ok v) \/ getitem m i j = Raise IndexError.
Proof.
  unfold getitem, norm_index.
  repeat (case_match; cbn [bind]); eauto.
Qed.

Lemma for_each_seq_raise {St : Type} (Inv : nat -> St -> Prop)
    (body : Z -> St -> result St) (e : exn) (n0 n a : nat) (s : St) :
  (n0 < n)%nat -> Inv a s ->
  (forall k s, (a <= k < a + n0)%nat -> Inv k s ->
     exists s', body (Z.of_nat k) s = Ok s' /\ Inv (S k) s') ->
  (forall s, Inv (a + n0)%nat s -> body (Z.of_nat (a + n0)) s = Raise e) ->
  for_each (map Z.of_nat (seq a n)) body s = Raise e.
Proof.
  revert n a s. induction n0 as [|n0 IH]; intros n a s Hn Ha Hstep Hfail.
  - destruct n as [|n]; [lia|]. simpl.
    rewrite Nat.add_0_r in Hfail. by rewrite (Hfail s Ha).
  - destruct n as [|n]; [lia|]. simpl.
    destruct (Hstep a s ltac:(lia) Ha) as (s1 & -> & H1). simpl.
    apply (IH n (S a) s1); [lia | done | |].
    + intros k t Hk. apply Hstep. lia.
    + intros t. replace (S a + n0)%nat with (a + S n0)%nat by lia. apply Hfail.
Qed.

Lemma for_each_range_raise {St : Type} (Inv : nat -> St -> Prop)
    (body : Z -> St -> result St) (e : exn) (n0 n : nat) (s : St) :
  (n0 < n)%nat -> Inv O s ->
  (forall k s, (k < n0)%nat -> Inv k s ->
     exists s', body (Z.of_nat k) s = Ok s' /\ Inv (S k) s') ->
  (forall s, Inv n0 s -> body (Z.of_nat n0) s = Raise e) ->
  for_each (range (Z.of_nat n)) body s = Raise e.
Proof.
  intros Hn H0 Hstep Hfail. unfold range. rewrite Nat2Z.id.
  apply (for_each_seq_raise Inv body e n0 n O s Hn H0).
  - intros k t Hk. apply Hstep. lia.
  - intros t. apply Hfail.
Qed.

Section AnyShape.
Variables seq1 seq2 : pystr.
Variables R0 C0 : nat.

Lemma block_read (r c i j : nat) (m : ndarray) :
  block_filled seq1 seq2 R0 C0 r c m ->
  (i < R0)%nat -> (j < C0)%nat -> (j <= length seq2)%nat ->
  (i < r \/ i = r /\ j < c)%nat ->
  getitem m (Z.of_nat i) (Z.of_nat j) = Ok (PyInt (nw seq1 seq2 i j)).
Proof.
  intros (H0 & H1 & Hwf & Hcells) Hi Hj Hj2 Hlt.
  apply getitem_nat; rewrite ?H0, ?H1; try done. by apply Hcells.
Qed.

Lemma block_write (r c : nat) (m : ndarray) :
  block_filled seq1 seq2 R0 C0 r c m -> (r < R0)%nat -> (c < C0)%nat ->
  exists m', setitem m (Z.of_nat r) (Z.of_nat c) (PyInt (nw seq1 seq2 r c)) = Ok m'
             /\ block_filled seq1 seq2 R0 C0 r (S c) m'.
Proof.
  intros (H0 & H1 & Hwf & Hcells) Hr Hc.
  rewrite setitem_nat by (rewrite ?H0, ?H1; done).
  eexists; split; [reflexivity|]. split; [done|]. split; [done|]. split.
  - unfold well_formed in *; simpl. by rewrite length_insert.
  - simpl. intros i j Hi Hj Hj2 Hlt. rewrite H1.
    destruct (decide (i = r /\ j = c)) as [[-> ->]|Hne].
    + apply list_lookup_insert_eq. rewrite Hwf, H0, H1.
      by apply cell_offset_lt.
    + rewrite list_lookup_insert_ne.
      * apply Hcells; [done | done | done | lia].
      * intros Heq. apply cell_offset_inj in Heq; [|lia|lia].
        destruct Heq as [-> ->]. by apply Hne.
Qed.

Lemma block_cell_step (r c : nat) (m : ndarray) :
  block_filled seq1 seq2 R0 C0 r c m ->
  (r < R0)%nat -> (c < C0)%nat ->
  (r <= length seq1)%nat -> (c <= length seq2)%nat ->
  exists m', populate_cell seq1 seq2 (Z.of_nat r) (Z.of_nat c) m = Ok m'
             /\ block_filled seq1 seq2 R0 C0 r (S c) m'.
Proof.
  intros Hm Hr Hc Hr1 Hc2. unfold populate_cell.
  destruct r as [|r], c as [|c].
  - simpl. by apply (block_write 0 0).
  - change (Z.of_nat 0 =? 0) with true.
    replace (Z.of_nat (S c) =? 0) with false by (symmetry; apply Z.eqb_neq; lia).
    simpl andb. cbv iota.
    replace (Z.of_nat (S c) - 1) with (Z.of_nat c) by lia.
    rewrite (block_read 0 (S c) 0 c m) by (done || lia). cbn [bind add_int].
    replace (nw seq1 seq2 0 c + gap_penalty) with (nw seq1 seq2 0 (S c))
      by (rewrite !nw_0_l; lia).
    by apply (block_write 0 (S c)).
  - replace (Z.of_nat (S r) =? 0) with false by (symmetry; apply Z.eqb_neq; lia).
    change (Z.of_nat 0 =? 0) with true. simpl andb. cbv iota.
    replace (Z.of_nat (S r) - 1) with (Z.of_nat r) by lia.
    rewrite (block_read (S r) 0 r 0 m) by (done || lia). cbn [bind add_int].
    replace (nw seq1 seq2 r 0 + gap_penalty) with (nw seq1 seq2 (S r) 0)
      by (rewrite !nw_0_r; lia).
    by apply (block_write (S r) 0).
  - replace (Z.of_nat (S r) =? 0) with false by (symmetry; apply Z.eqb_neq; lia).
    replace (Z.of_nat (S c) =? 0) with false by (symmetry; apply Z.eqb_neq; lia).
    simpl andb. cbv iota.
    rewrite ScoringMatrix_nat by lia.
    replace (Z.of_nat (S r) - 1) with (Z.of_nat r) by lia.
    replace (Z.of_nat (S c) - 1) with (Z.of_nat c) by lia.
    rewrite (block_read (S r) (S c) r c m) by (done || lia).
    rewrite (block_read (S r) (S c) r (S c) m) by (done || lia).
    rewrite (block_read (S r) (S c) (S r) c m) by (done || lia).
    cbn [bind add_int]. rewrite <- nw_S_S.
    by apply (block_write (S r) (S c)).
Qed.

Lemma block_next_row (r : nat) (m : ndarray) :
  block_filled seq1 seq2 R0 C0 r (S (length seq2)) m ->
  block_filled seq1 seq2 R0 C0 (S r) 0 m.
Proof.
  intros (H0 & H1 & Hwf & Hcells). repeat split; try done.
  intros i j Hi Hj Hj2 Hlt. apply Hcells; try done. lia.
Qed.

Lemma block_start (matx : ndarray) :
  shape0 matx = R0 -> shape1 matx = C0 -> well_formed matx ->
  block_filled seq1 seq2 R0 C0 0 0 matx.
Proof. intros H0 H1 Hwf. repeat split; try done. intros i j _ _ _ Hlt. lia. Qed.

(** A whole row of the inner loop, when the matrix is wide enough. *)
Lemma block_row (r : nat) (m : ndarray) :
  block_filled seq1 seq2 R0 C0 r 0 m ->
  (r < R0)%nat -> (r <= length seq1)%nat -> (length seq2 < C0)%nat ->
  exists m', for_each (range (Z.of_nat (S (length seq2))))
               (populate_cell seq1 seq2 (Z.of_nat r)) m = Ok m'
             /\ block_filled seq1 seq2 R0 C0 (S r) 0 m'.
Proof.
  intros Hm Hr Hr1 HC.
  destruct (for_each_range (fun c m => block_filled seq1 seq2 R0 C0 r c m)
              (populate_cell seq1 seq2 (Z.of_nat r)) (S (length seq2)) m Hm)
    as (m' & Hm' & Hfilled).
  - intros c m0 Hc Hm0. apply block_cell_step; (done || lia).
  - exists m'. split; [done|]. by apply block_next_row.
Qed.

(** A matrix at least as large as the sequences need is populated in its
    upper left block and keeps its shape. *)
Lemma populate_large (matx : ndarray) :
  shape0 matx = R0 -> shape1 matx = C0 -> well_formed matx ->
  (length seq1 < R0)%nat -> (length seq2 < C0)%nat ->
  exists m, populate (Z.of_nat (S (length seq1))) (Z.of_nat (S (length seq2)))
              seq1 seq2 matx = Ok m
            /\ block_filled seq1 seq2 R0 C0 (S (length seq1)) 0 m.
Proof.
  intros H0 H1 Hwf HR HC. unfold populate.
  apply (for_each_range (fun r m => block_filled seq1 seq2 R0 C0 r 0 m)).
  - by apply block_start.
  - intros r m Hr Hm. apply block_row; (done || lia).
Qed.

(** A matrix with too few rows or columns: the first write outside it
    raises [IndexError]. *)
Lemma populate_small (matx : ndarray) :
  shape0 matx = R0 -> shape1 matx = C0 -> well_formed matx ->
  (R0 <= length seq1 \/ C0 <= length seq2)%nat ->
  populate (Z.of_nat (S (length seq1))) (Z.of_nat (S (length seq2)))
    seq1 seq2 matx = Raise IndexError.
Proof.
  intros H0 H1 Hwf Hsmall. unfold populate.
  destruct (decide (R0 = O \/ C0 <= length seq2)%nat) as [Hrow0|Hrows].
  - (* the failure is in row 0 *)
    apply (for_each_range_raise
             (fun r m => block_filled seq1 seq2 R0 C0 r 0 m) _ _ O);
      [lia | by apply block_start | intros; lia |].
    intros m Hm.
    apply (for_each_range_raise
             (fun c m => block_filled seq1 seq2 R0 C0 0 c m) _ _
             (if decide (R0 = O) then O else C0)).
    + case_decide; lia.
    + done.
    + intros c m0 Hc Hm0. case_decide; [lia|].
      apply block_cell_step; (done || lia).
    + intros m0 Hm0. pose proof Hm0 as (Hs0 & Hs1 & _ & _).
      unfold populate_cell. case_decide as HR0.
      * simpl. apply (setitem_out m0 0 0). lia.
      * change (Z.of_nat 0 =? 0) with true.
        destruct (Z.eqb_spec (Z.of_nat C0) 0) as [HC0|HC0]; simpl andb; cbv iota.
        { apply setitem_out. lia. }
        replace (Z.of_nat C0 - 1) with (Z.of_nat (C0 - 1)) by lia.
        rewrite (block_read 0 C0 0 (C0 - 1) m0) by (done || lia).
        cbn [bind add_int]. apply setitem_out. lia.
  - (* the failure is in row R0, column 0 *)
    assert (HR : (0 < R0 <= length seq1)%nat) by lia.
    assert (HC : (length seq2 < C0)%nat) by lia.
    apply (for_each_range_raise
             (fun r m => block_filled seq1 seq2 R0 C0 r 0 m) _ _ R0);
      [lia | by apply block_start | |].
    + intros r m Hr Hm. apply block_row; (done || lia).
    + intros m Hm.
      apply (for_each_range_raise
               (fun c m => block_filled seq1 seq2 R0 C0 R0 c m) _ _ O);
        [lia | done | intros; lia |].
      intros m0 Hm0. pose proof Hm0 as (Hs0 & Hs1 & _ & _).
      unfold populate_cell.
      replace (Z.of_nat R0 =? 0) with false
        by (symmetry; apply Z.eqb_neq; lia).
      change (Z.of_nat 0 =? 0) with true. simpl andb. cbv iota.
      replace (Z.of_nat R0 - 1) with (Z.of_nat (R0 - 1)) by lia.
      rewrite (block_read R0 0 (R0 - 1) 0 m0) by (done || lia).
      cbn [bind add_int]. apply setitem_out. lia.
Qed.
End AnyShape.

Lemma ScoringMatrix_out (i j : Z) (seq1 seq2 : pystr) :
  Z.of_nat (length seq1) < i \/ Z.of_nat (length seq2) < j ->
  0 < i -> 0 < j ->
  ScoringMatrix i j seq1 seq2 = Raise IndexError.
Proof.
  intros Hout Hi Hj. unfold ScoringMatrix.
  destruct (str_getitem_total seq1 (i - 1)) as [[a Ha]| ->]; [|done].
  rewrite Ha. cbn [bind]. apply str_getitem_Ok_range in Ha.
  rewrite str_getitem_out by lia. done.
Qed.

Lemma walk_body_out (m : ndarray) (seq1 seq2 : pystr) (st : bt_state) :
  Z.of_nat (length seq1) < row_index st \/
  Z.of_nat (length seq2) < column_index st ->
  0 < row_index st -> 0 < column_index st ->
  walk_body m seq1 seq2 st = Raise IndexError.
Proof.
  intros Hout Hr Hc. unfold walk_body, candidate_scores.
  destruct (getitem_total m (row_index st - 1) (column_index st - 1))
    as [[v ->]| ->]; [|done].
  cbn [bind]. by rewrite ScoringMatrix_out.
Qed.

(** Whatever it holds, a matrix with room to spare makes the loops of
    [BackTracking] index past the end of a sequence. *)
Lemma BackTracking_alignment_oversized (m : ndarray) (seq1 seq2 : pystr) :
  (length seq1 < shape0 m)%nat -> (length seq2 < shape1 m)%nat ->
  shape0 m <> S (length seq1) \/ shape1 m <> S (length seq2) ->
  BackTracking_alignment m seq1 seq2 = Raise IndexError.
Proof.
  intros HR HC Hne. unfold BackTracking_alignment.
  set (st0 := mk_bt _ _ _ _).
  destruct (walk_cond st0) eqn:Hcond.
  - (* the main loop runs and its first turn raises *)
    unfold walk_cond in Hcond. subst st0. cbn in Hcond.
    apply andb_prop in Hcond as [Hr%Z.gtb_lt Hc%Z.gtb_lt].
    unfold walk_fuel. cbn [row_index column_index].
    destruct (Z.to_nat _) as [|fuel] eqn:Hfuel; [lia|].
    rewrite while_loop_unfold
      by (unfold walk_cond; cbn; apply andb_true_intro;
          split; apply Z.gtb_lt; lia).
    rewrite walk_body_out; [done | cbn; lia | cbn; lia | cbn; lia].
  - rewrite while_loop_exit by done. cbn [bind].
    unfold walk_cond in Hcond. subst st0. cbn in Hcond.
    cbn [row_index column_index].
    destruct (Z.eqb_spec (Z.of_nat (shape1 m) - 1) 0) as [Hc0|Hc0].
    + (* one column: the first clean-up loop raises *)
      unfold drain_fuel. rewrite Nat.add_succ_r.
      rewrite while_loop_unfold
        by (unfold rows_left; cbn; apply negb_true_iff, Z.eqb_neq; lia).
      unfold move_up. cbn [row_index].
      rewrite str_getitem_out by lia. done.
    + assert (Hr0 : Z.of_nat (shape0 m) - 1 = 0).
      { apply andb_false_iff in Hcond as [Hx|Hx];
          apply Z.gtb_ltb, Z.ltb_ge in Hx || idtac; lia. }
      rewrite Hr0. change (0 =? 0) with true. cbv iota.
      unfold drain_fuel. rewrite Nat.add_succ_r.
      rewrite while_loop_unfold
        by (unfold columns_left; cbn; apply negb_true_iff, Z.eqb_neq; lia).
      unfold move_left. cbn [column_index].
      rewrite str_getitem_out by lia. done.
Qed.

(** X6.  [PopulateMatrix], called with the row and column counts of the two
    sequences on a matrix of any other shape, raises [IndexError]: a matrix
    too small stops the population loops at the first cell outside it, and
    a matrix too large is populated and then stops [BackTracking], which
    starts from the last cell of the matrix, at a symbol past the end of a
    sequence.  On a matrix of the matching shape it returns. *)
Theorem PopulateMatrix_shape_contract (seq1 seq2 : pystr) (matx : ndarray) :
  well_formed matx ->
  (shape0 matx = S (length seq1) /\ shape1 matx = S (length seq2) ->
   exists r : pystr,
     PopulateMatrix (Z.of_nat (S (length seq1))) (Z.of_nat (S (length seq2)))
       seq1 seq2 matx = Ok r) /\
  (shape0 matx <> S (length seq1) \/ shape1 matx <> S (length seq2) ->
   PopulateMatrix (Z.of_nat (S (length seq1))) (Z.of_nat (S (length seq2)))
     seq1 seq2 matx = Raise IndexError).
Proof.
  intros Hwf. split.
  - intros [H0 H1].
    destruct (populate_populated seq1 seq2 matx) as (m & Hm & Hp);
      [by repeat split|].
    destruct (BackTracking_alignment_populated seq1 seq2 m Hp)
      as (a1 & a2 & Ha & _).
    eexists. eapply PopulateMatrix_render; [done | done |].
    by apply populated_last.
  - intros Hne. unfold PopulateMatrix.
    destruct (decide (shape0 matx <= length seq1
                      \/ shape1 matx <= length seq2)%nat) as [Hsmall|Hlarge].
    + by rewrite (populate_small seq1 seq2 (shape0 matx) (shape1 matx)).
    + destruct (populate_large seq1 seq2 (shape0 matx) (shape1 matx) matx)
        as (m & -> & (H0 & H1 & _)); try done; try lia.
      cbn [bind]. unfold BackTracking.
      rewrite BackTracking_alignment_oversized; [done | lia | lia | lia].
Qed.

(** X6 on "AC" against "AG" with a 3x4 matrix and a 2x3 matrix. *)
Lemma PopulateMatrix_shape_contract_witness :
  let seq1 := list_ascii_of_string "AC" in
  let seq2 := list_ascii_of_string "AG" in
  well_formed (np_full 3 4 PyNone) /\ well_formed (np_full 2 3 PyNone) /\
  PopulateMatrix 3 3 seq1 seq2 (np_full 3 4 PyNone) = Raise IndexError /\
  PopulateMatrix 3 3 seq1 seq2 (np_full 2 3 PyNone) = Raise IndexError.
Proof.
  intros seq1 seq2.
  assert (Hw1 : well_formed (np_full 3 4 PyNone)) by reflexivity.
  assert (Hw2 : well_formed (np_full 2 3 PyNone)) by reflexivity.
  split; [exact Hw1|]. split; [exact Hw2|]. split.
  - apply (proj2 (PopulateMatrix_shape_contract seq1 seq2 _ Hw1)).
    right. discriminate.
  - apply (proj2 (PopulateMatrix_shape_contract seq1 seq2 _ Hw2)).
    left. discriminate.
Defined.

(** X7.  [BackTracking] takes its starting cell from the matrix, not from
    the sequences: on a matrix with more rows or columns than the
    sequences call for it raises [IndexError], whatever the cells hold. *)
Theorem BackTracking_oversized (m : ndarray) (seq1 seq2 : pystr) :
  (length seq1 < shape0 m)%nat -> (length seq2 < shape1 m)%nat ->
  shape0 m <> S (length seq1) \/ shape1 m <> S (length seq2) ->
  BackTracking m seq1 seq2 = Raise IndexError.
Proof.
  intros HR HC Hne. unfold BackTracking.
  by rewrite BackTracking_alignment_oversized.
Qed.

(** X7 on a 2x3 matrix of integers and two one-symbol sequences. *)
Lemma BackTracking_oversized_witness :
  let m := mk_ndarray 2 3
             [PyInt 0; PyInt (-2); PyInt (-4); PyInt (-2); PyInt 1; PyInt (-1)] in
  let seq1 := list_ascii_of_string "A" in
  let seq2 := list_ascii_of_string "A" in
  (length seq1 < shape0 m)%nat /\ (length seq2 < shape1 m)%nat /\
  BackTracking m seq1 seq2 = Raise IndexError.
Proof.
  intros m seq1 seq2.
  assert (H0 : (length seq1 < shape0 m)%nat) by (simpl; lia).
  assert (H1 : (length seq2 < shape1 m)%nat) by (simpl; lia).
  split; [exact H0|]. split; [exact H1|].
  apply (BackTracking_oversized m seq1 seq2 H0 H1). right. discriminate.
Defined.

(** ** The loop of [ParserFile] *)

Lemma np_full_matching (seq1 seq2 : pystr) (v : pyobj) :
  matching_dims (np_full (S (length seq1)) (S (length seq2)) v) seq1 seq2.
Proof.
  repeat split. unfold well_formed, np_full. cbn [buffer shape0 shape1].
  by rewrite length_replicate.
Qed.

Lemma ParserFile_row_Ok (seq_one seq_two : pystr) :
  exists (a1 a2 : pystr) (score : Z),
    ParserFile_row seq_one seq_two = Ok (render a1 a2 (PyInt score)).
Proof.
  unfold ParserFile_row.
  destruct (populate_populated seq_one seq_two _
              (np_full_matching seq_one seq_two PyNone)) as (m & Hm & Hp).
  destruct (BackTracking_alignment_populated seq_one seq_two m Hp)
    as (a1 & a2 & Ha & _).
  exists a1, a2, (nw seq_one seq_two (length seq_one) (length seq_two)).
  eapply PopulateMatrix_render; [done | done | by apply populated_last].
Qed.

Lemma ParserFile_body_short (row : list pystr) :
  (length row < 2)%nat -> ParserFile_body row = Raise IndexError.
Proof.
  intros Hlen. unfold ParserFile_body.
  destruct row as [|a [|b row]]; simpl in Hlen; try lia; reflexivity.
Qed.

Lemma ParserFile_body_fields (a b : pystr) (rest : list pystr) :
  ParserFile_body (a :: b :: rest) = ParserFile_row a b.
Proof.
  unfold ParserFile_body, list_getitem.
  rewrite (norm_index_nat _ 0), (norm_index_nat _ 1) by (simpl; lia).
  reflexivity.
Qed.

(** X8.  When every row has at least two fields the loop of [ParserFile]
    reports no error: it writes two lines for each row, both the result of
    aligning the row's first field with its second, in the order of the
    rows; further fields are not looked at. *)
Theorem ParserFile_rows_all (rows : list (list pystr)) :
  Forall (fun row => (2 <= length row)%nat) rows ->
  exists results : list pystr,
    Forall2 (fun row result =>
               exists (a b : pystr) (rest : list pystr),
                 row = a :: b :: rest /\ ParserFile_row a b = Ok result)
            rows results /\
    ParserFile_rows rows
      = flat_map (fun result => [Printed result; Printed result]) results /\
    length (ParserFile_rows rows) = (2 * length rows)%nat.
Proof.
  induction 1 as [|row rows Hrow _ (results & Hall & Hout & Hlen)].
  - exists []. by repeat split.
  - destruct row as [|a [|b rest]]; simpl in Hrow; try lia.
    destruct (ParserFile_row_Ok a b) as (a1 & a2 & score & Hr).
    exists (render a1 a2 (PyInt score) :: results).
    cbn [ParserFile_rows]. rewrite ParserFile_body_fields, Hr. split; [|split].
    + constructor; [|done]. by exists a, b, rest.
    + cbn [flat_map app]. by rewrite Hout.
    + cbn [length]. rewrite Hlen. lia.
Qed.

(** X8 on a file of two rows, the second with a third field. *)
Lemma ParserFile_rows_all_witness :
  let rows := [[list_ascii_of_string "AC"; list_ascii_of_string "AC"];
               [list_ascii_of_string "A"; list_ascii_of_string "G";
                list_ascii_of_string "ignored"]] in
  Forall (fun row => (2 <= length row)%nat) rows /\
  length (ParserFile_rows rows) = 4%nat.
Proof.
  intros rows.
  assert (Hrows : Forall (fun row => (2 <= length row)%nat) rows)
    by (repeat constructor).
  split; [exact Hrows|].
  destruct (ParserFile_rows_all rows Hrows) as (results & _ & _ & Hlen).
  exact Hlen.
Defined.

(** X9.  A row with fewer than two fields ends the loop of [ParserFile]:
    the rows before it are written as usual, then one report of an
    [IndexError], and the rows after it are never aligned. *)
Theorem ParserFile_rows_short_row (good : list (list pystr))
    (bad : list pystr) (rest : list (list pystr)) :
  Forall (fun row => (2 <= length row)%nat) good ->
  (length bad < 2)%nat ->
  ParserFile_rows (good ++ bad :: rest)
    = ParserFile_rows good ++ [ErrorReport IndexError] /\
  length (ParserFile_rows (good ++ bad :: rest)) = (2 * length good + 1)%nat.
Proof.
  intros Hgood Hbad.
  assert (Hout : ParserFile_rows (good ++ bad :: rest)
                 = ParserFile_rows good ++ [ErrorReport IndexError]).
  { induction Hgood as [|row good Hrow _ IH].
    - cbn [app ParserFile_rows]. by rewrite ParserFile_body_short.
    - destruct row as [|a [|b more]]; simpl in Hrow; try lia.
      destruct (ParserFile_row_Ok a b) as (a1 & a2 & score & Hr).
      cbn [app ParserFile_rows]. rewrite ParserFile_body_fields, Hr.
      cbn [app]. by rewrite IH. }
  split; [done|]. rewrite Hout, length_app. cbn [length].
  clear Hout. induction Hgood as [|row good Hrow _ IH]; [done|].
  destruct row as [|a [|b more]]; simpl in Hrow; try lia.
  destruct (ParserFile_row_Ok a b) as (a1 & a2 & score & Hr).
  cbn [ParserFile_rows length]. rewrite ParserFile_body_fields, Hr.
  cbn [length]. lia.
Qed.

(** X9 on a file whose second row has one field. *)
Lemma ParserFile_rows_short_row_witness :
  let good := [[list_ascii_of_string "AC"; list_ascii_of_string "AC"]] in
  let bad := [list_ascii_of_string "ACGT"] in
  let rest := [[list_ascii_of_string "A"; list_ascii_of_string "G"]] in
  Forall (fun row => (2 <= length row)%nat) good /\
  (length bad < 2)%nat /\
  ParserFile_rows (good ++ bad :: rest)
    = [Printed (list_ascii_of_string "AC AC 2");
       Printed (list_ascii_of_string "AC AC 2");
       ErrorReport IndexError].
Proof.
  intros good bad rest.
  assert (Hgood : Forall (fun row => (2 <= length row)%nat) good)
    by (repeat constructor).
  assert (Hbad : (length bad < 2)%nat) by (simpl; lia).
  split; [exact Hgood|]. split; [exact Hbad|].
  exact (proj1 (ParserFile_rows_short_row good bad rest Hgood Hbad)).
Defined.

(** ** What the matrix held before *)

Lemma filled_unique (seq1 seq2 : pystr) (m m' : ndarray) :
  filled_upto seq1 seq2 (S (length seq1)) 0 m ->
  filled_upto seq1 seq2 (S (length seq1)) 0 m' ->
  m = m'.
Proof.
  intros [(H0 & H1 & Hwf) Hcells] [(H0' & H1' & Hwf') Hcells'].
  destruct m as [r c buf], m' as [r' c' buf'].
  unfold well_formed in *. cbn [shape0 shape1 buffer] in *. subst r c r' c'.
  f_equal. apply list_eq. intros k.
  destruct (Nat.lt_ge_cases k (S (length seq1) * S (length seq2))) as [Hk|Hk].
  - set (C := S (length seq2)) in *.
    assert (HC : C <> O) by (subst C; lia).
    pose proof (Nat.div_mod k C HC) as Hdiv.
    pose proof (Nat.mod_upper_bound k C HC) as Hmod.
    assert (Hi : (k `div` C < S (length seq1))%nat)
      by (apply Nat.Div0.div_lt_upper_bound; lia).
    replace k with (k `div` C * C + k `mod` C)%nat by lia.
    rewrite Hcells, Hcells'; (done || subst C; lia).
  - rewrite !(proj2 (lookup_ge_None _ _)) by lia. done.
Qed.

(** X10.  The matrix that [PopulateMatrix] builds does not depend on what
    the matrix held before: any two matrices of matching dimensions come
    out equal, so populating a populated matrix again changes nothing. *)
Theorem populate_overwrites (seq1 seq2 : pystr) (matx matx' : ndarray) :
  matching_dims matx seq1 seq2 ->
  matching_dims matx' seq1 seq2 ->
  exists m : ndarray,
    populate (Z.of_nat (S (length seq1))) (Z.of_nat (S (length seq2)))
      seq1 seq2 matx = Ok m /\
    populate (Z.of_nat (S (length seq1))) (Z.of_nat (S (length seq2)))
      seq1 seq2 matx' = Ok m /\
    populate (Z.of_nat (S (length seq1))) (Z.of_nat (S (length seq2)))
      seq1 seq2 m = Ok m.
Proof.
  intros Hd Hd'.
  destruct (populate_filled seq1 seq2 matx Hd) as (m & Hm & Hf).
  destruct (populate_filled seq1 seq2 matx' Hd') as (m' & Hm' & Hf').
  destruct (populate_filled seq1 seq2 m (proj1 Hf)) as (m2 & Hm2 & Hf2).
  assert (m' = m) as -> by (by apply (filled_unique seq1 seq2)).
  assert (m2 = m) as -> by (by apply (filled_unique seq1 seq2)).
  by exists m.
Qed.

(** X10 on "AC" against "AG", from a matrix of [None] and from a matrix of
    sevens. *)
Lemma populate_overwrites_witness :
  let seq1 := list_ascii_of_string "AC" in
  let seq2 := list_ascii_of_string "AG" in
  matching_dims (np_full 3 3 PyNone) seq1 seq2 /\
  matching_dims (np_full 3 3 (PyInt 7)) seq1 seq2 /\
  populate 3 3 seq1 seq2 (np_full 3 3 PyNone)
    = populate 3 3 seq1 seq2 (np_full 3 3 (PyInt 7)).
Proof.
  intros seq1 seq2.
  assert (Hd : matching_dims (np_full 3 3 PyNone) seq1 seq2)
    by (repeat split; reflexivity).
  assert (Hd' : matching_dims (np_full 3 3 (PyInt 7)) seq1 seq2)
    by (repeat split; reflexivity).
  split; [exact Hd|]. split; [exact Hd'|].
  destruct (populate_overwrites seq1 seq2 _ _ Hd Hd') as (m & H1 & H2 & _).
  exact (eq_trans H1 (eq_sym H2)).
Defined.

(** ** Termination *)

(** X11.  The three [while] loops of [BackTracking] end on every input,
    also on a matrix of the wrong shape or holding [None], and also from a
    negative start index, where a clean-up loop ends by indexing before the
    start of the string: neither [BackTracking] nor [PopulateMatrix] ever
    meets the iteration bounds of the model. *)
Theorem BackTracking_terminates (seq_rows seq_columns : Z)
    (seq1 seq2 : pystr) (matx : ndarray) :
  BackTracking matx seq1 seq2 <> Raise FuelExhausted /\
  PopulateMatrix seq_rows seq_columns seq1 seq2 matx <> Raise FuelExhausted.
Proof.
  split.
  - apply within_fuel_BackTracking.
  - apply within_fuel_PopulateMatrix.
Qed.

(** ** The domain of [ScoringMatrix] *)

Lemma norm_index_wrap (n : nat) (i : Z) :
  - Z.of_nat n <= i < Z.of_nat n ->
  norm_index n i = Ok (Z.to_nat (i mod Z.of_nat n)).
Proof.
  intros Hi. unfold norm_index.
  destruct (Z.ltb_spec i 0) as [Hneg|Hpos].
  - destruct (Z.leb_spec 0 (i + Z.of_nat n)); [|lia].
    destruct (Z.ltb_spec (i + Z.of_nat n) (Z.of_nat n)); [|lia].
    simpl. do 2 f_equal.
    rewrite <- (Z.mod_small (i + Z.of_nat n) (Z.of_nat n)) by lia.
    rewrite <- (Z.mul_1_l (Z.of_nat n)) at 1. by rewrite Z.mod_add by lia.
  - destruct (Z.leb_spec 0 i); [|lia].
    destruct (Z.ltb_spec i (Z.of_nat n)); [|lia].
    simpl. by rewrite Z.mod_small by lia.
Qed.

Lemma norm_index_range (n : nat) (i : Z) :
  ~ (- Z.of_nat n <= i < Z.of_nat n) -> norm_index n i = Raise IndexError.
Proof.
  intros Hi. unfold norm_index.
  destruct (Z.ltb_spec i 0).
  - destruct (Z.leb_spec 0 (i + Z.of_nat n)); [|done].
    destruct (Z.ltb_spec (i + Z.of_nat n) (Z.of_nat n)); [lia|done].
  - destruct (Z.leb_spec 0 i); [|lia].
    destruct (Z.ltb_spec i (Z.of_nat n)); [lia|done].
Qed.

Lemma str_getitem_wrap (seq : pystr) (i : Z) :
  - Z.of_nat (length seq) <= i < Z.of_nat (length seq) ->
  str_getitem seq i
    = Ok (nth (Z.to_nat (i mod Z.of_nat (length seq))) seq "000"%char).
Proof.
  intros Hi. unfold str_getitem. rewrite norm_index_wrap by done.
  cbn [bind].
  assert (Hk : (Z.to_nat (i mod Z.of_nat (length seq)) < length seq)%nat).
  { pose proof (Z.mod_pos_bound i (Z.of_nat (length seq)) ltac:(lia)). lia. }
  destruct (seq !! _) as [c|] eqn:Hc.
  - f_equal. symmetry. by apply nth_lookup_Some.
  - apply lookup_ge_None in Hc. lia.
Qed.

(** X12.  [ScoringMatrix] returns for exactly the indices [i] in
    [(-len1, len1]] and [j] in [(-len2, len2]], and raises [IndexError] for
    all others.  Inside, its value is 1 when the two symbols it reads are
    equal and -1 otherwise; an index of 0 or below reads from the end of
    the sequence, so [ScoringMatrix(0, j)] compares the last symbol of the
    first sequence. *)
Theorem ScoringMatrix_domain (i j : Z) (seq1 seq2 : pystr) :
  let n1 := Z.of_nat (length seq1) in
  let n2 := Z.of_nat (length seq2) in
  (- n1 < i <= n1 -> - n2 < j <= n2 ->
   ScoringMatrix i j seq1 seq2
     = Ok (pair_score (nth (Z.to_nat ((i - 1) mod n1)) seq1 "000"%char)
                      (nth (Z.to_nat ((j - 1) mod n2)) seq2 "000"%char))) /\
  (~ (- n1 < i <= n1 /\ - n2 < j <= n2) ->
   ScoringMatrix i j seq1 seq2 = Raise IndexError).
Proof.
  intros n1 n2. split.
  - intros Hi Hj. unfold ScoringMatrix.
    rewrite !str_getitem_wrap by (subst n1 n2; lia). cbn [bind].
    unfold pair_score. by destruct (Ascii.eqb _ _).
  - intros Hout. unfold ScoringMatrix, str_getitem.
    destruct (decide (- n1 < i <= n1)) as [Hi|Hi].
    + rewrite (norm_index_wrap (length seq1)) by (subst n1; lia). cbn [bind].
      destruct (seq1 !! _); [|done]. cbn [bind].
      rewrite norm_index_range by (subst n2; lia). done.
    + rewrite norm_index_range by (subst n1; lia). done.
Qed.

(** X12 on "ACGT" against "TTTT": row 0 reads the last symbol, row 5 is
    out of range. *)
Lemma ScoringMatrix_domain_witness :
  let seq1 := list_ascii_of_string "ACGT" in
  let seq2 := list_ascii_of_string "TTTT" in
  ScoringMatrix 0 1 seq1 seq2 = Ok 1 /\
  ScoringMatrix 5 1 seq1 seq2 = Raise IndexError.
Proof.
  intros seq1 seq2. split.
  - apply (proj1 (ScoringMatrix_domain 0 1 seq1 seq2)); simpl; lia.
  - apply (proj2 (ScoringMatrix_domain 5 1 seq1 seq2)). simpl. lia.
Defined.

(** ** A matrix smaller than the sequences *)

Lemma while_loop_agree {St : Type} (cond : St -> bool)
    (body body' : St -> result St) (Inv : St -> Prop) :
  (forall s, Inv s -> cond s = true -> body s = body' s) ->
  (forall s s', Inv s -> cond s = true -> body' s = Ok s' -> Inv s') ->
  forall fuel s, Inv s ->
    while_loop fuel cond body s = while_loop fuel cond body' s.
Proof.
  intros Hsame Hkeep. induction fuel as [|fuel IH]; intros s Hs; simpl;
    destruct (cond s) eqn:Hc; try done.
  rewrite (Hsame s Hs Hc). destruct (body' s) as [s'|e] eqn:Hb; [|done].
  simpl. apply IH. by eapply Hkeep.
Qed.

Lemma while_loop_more_fuel {St : Type} (cond : St -> bool)
    (body : St -> result St) (fuel fuel' : nat) (s s' : St) :
  while_loop fuel cond body s = Ok s' -> (fuel <= fuel')%nat ->
  while_loop fuel' cond body s = Ok s'.
Proof.
  revert fuel' s. induction fuel as [|fuel IH]; intros fuel' s; simpl;
    destruct (cond s) eqn:Hc; try done.
  - intros [= <-] _. by apply while_loop_exit.
  - intros Hrun Hle. destruct fuel' as [|fuel']; [lia|].
    rewrite while_loop_unfold by done.
    destruct (body s) as [s1|e]; [|done]. simpl in *.
    apply IH; [done | lia].
  - intros [= <-] _. by apply while_loop_exit.
Qed.

Lemma str_getitem_take (seq : pystr) (r : nat) (i : Z) :
  (r <= length seq)%nat -> 0 <= i < Z.of_nat r ->
  str_getitem (take r seq) i = str_getitem seq i.
Proof.
  intros Hr Hi. unfold str_getitem. rewrite length_take_le by done.
  replace i with (Z.of_nat (Z.to_nat i)) by lia.
  rewrite !norm_index_nat by lia. cbn [bind]. unfold pystr.
  by rewrite lookup_take_lt by lia.
Qed.

Section Undersized.
Variables seq1 seq2 : pystr.
Variables r c : nat.
Hypothesis Hr : (r <= length seq1)%nat.
Hypothesis Hc : (c <= length seq2)%nat.


Lemma walk_body_take (m : ndarray) (st : bt_state) :
  0 < row_index st <= Z.of_nat r -> 0 < column_index st <= Z.of_nat c ->
  walk_body m seq1 seq2 st = walk_body m (take r seq1) (take c seq2) st.
Proof.
  intros Hrow Hcol.
  unfold walk_body, candidate_scores, ScoringMatrix,
    move_diagonal, move_up, move_left.
  by rewrite !str_getitem_take by lia.
Qed.

Lemma move_up_take (st : bt_state) :
  0 < row_index st <= Z.of_nat r ->
  move_up seq1 st = move_up (take r seq1) st.
Proof. intros Hrow. unfold move_up. by rewrite str_getitem_take by lia. Qed.

Lemma move_left_take (st : bt_state) :
  0 < column_index st <= Z.of_nat c ->
  move_left seq2 st = move_left (take c seq2) st.
Proof. intros Hcol. unfold move_left. by rewrite str_getitem_take by lia. Qed.

Lemma walk_body_indices (m : ndarray) (s1 s2 : pystr) (st st' : bt_state) :
  walk_body m s1 s2 st = Ok st' ->
  row_index st - 1 <= row_index st' <= row_index st /\
  column_index st - 1 <= column_index st' <= column_index st.
Proof.
  unfold walk_body. intros ([[d u] l] & _ & Hb)%bind_Ok_inv.
  unfold move_diagonal, move_up, move_left in Hb.
  repeat case_match;
    repeat (apply bind_Ok_inv in Hb as (? & _ & Hb));
    injection Hb as <-; cbn; lia.
Qed.

Lemma move_up_indices (s1 : pystr) (st st' : bt_state) :
  move_up s1 st = Ok st' ->
  row_index st' = row_index st - 1 /\ column_index st' = column_index st.
Proof. unfold move_up. by intros (a & _ & [= <-])%bind_Ok_inv. Qed.

Lemma move_left_indices (s2 : pystr) (st st' : bt_state) :
  move_left s2 st = Ok st' ->
  row_index st' = row_index st /\ column_index st' = column_index st - 1.
Proof. unfold move_left. by intros (a & _ & [= <-])%bind_Ok_inv. Qed.

(** On a matrix with [r + 1] rows and [c + 1] columns the loops of
    [BackTracking] only read the first [r] symbols of the first sequence
    and the first [c] of the second. *)
Lemma BackTracking_alignment_take (m : ndarray) (a1 a2 : pystr) :
  shape0 m = S r -> shape1 m = S c ->
  BackTracking_alignment m (take r seq1) (take c seq2) = Ok (a1, a2) ->
  BackTracking_alignment m seq1 seq2 = Ok (a1, a2).
Proof.
  intros H0 H1. unfold BackTracking_alignment. rewrite H0, H1.
  set (st0 := mk_bt _ _ _ _).
  set (Inv := fun st : bt_state =>
                0 <= row_index st <= Z.of_nat r /\
                0 <= column_index st <= Z.of_nat c).
  assert (Hst0 : Inv st0) by (subst st0 Inv; cbn; lia).
  intros (st1 & Hwalk & (st2 & Hdrain & Hret)%bind_Ok_inv)%bind_Ok_inv.
  assert (Hwalk' : while_loop (walk_fuel st0) walk_cond
                     (walk_body m seq1 seq2) st0 = Ok st1).
  { rewrite <- Hwalk. apply (while_loop_agree _ _ _ Inv); [| |done].
    - intros s [Hrow Hcol] [?%Z.gtb_lt ?%Z.gtb_lt]%andb_prop.
      apply walk_body_take; lia.
    - intros s s' [Hrow Hcol] [?%Z.gtb_lt ?%Z.gtb_lt]%andb_prop
        Hb%walk_body_indices. unfold Inv. lia. }
  assert (Hst1 : Inv st1).
  { apply (while_loop_inv walk_cond (walk_body m (take r seq1) (take c seq2))
             Inv) in Hwalk as [? _]; [done| |done].
    intros s s' [Hrow Hcol] [?%Z.gtb_lt ?%Z.gtb_lt]%andb_prop
      Hb%walk_body_indices. unfold Inv. lia. }
  rewrite Hwalk'. cbn [bind].
  assert (Hfuel : forall (seq : pystr) (n : nat) (i : Z),
            (n <= length seq)%nat ->
            (drain_fuel (take n seq) i <= drain_fuel seq i)%nat).
  { intros seq n i Hn. unfold drain_fuel. rewrite length_take_le by done. lia. }
  destruct (column_index st1 =? 0); [|destruct (row_index st1 =? 0)].
  - apply (while_loop_more_fuel _ _ _ (drain_fuel seq1 (row_index st1)))
      in Hdrain;
      [|by apply Hfuel].
    rewrite <- (while_loop_agree rows_left (move_up seq1) (move_up (take r seq1))
                  Inv) in Hdrain; [by rewrite Hdrain| | |done].
    + intros s [Hrow Hcol] Hleft%negb_true_iff%Z.eqb_neq.
      apply move_up_take. lia.
    + intros s s' [Hrow Hcol] Hleft%negb_true_iff%Z.eqb_neq
        Hb%move_up_indices. unfold Inv. lia.
  - apply (while_loop_more_fuel _ _ _ (drain_fuel seq2 (column_index st1)))
      in Hdrain;
      [|by apply Hfuel].
    rewrite <- (while_loop_agree columns_left (move_left seq2)
                  (move_left (take c seq2)) Inv) in Hdrain;
      [by rewrite Hdrain| | |done].
    + intros s [Hrow Hcol] Hleft%negb_true_iff%Z.eqb_neq.
      apply move_left_take. lia.
    + intros s s' [Hrow Hcol] Hleft%negb_true_iff%Z.eqb_neq
        Hb%move_left_indices. unfold Inv. lia.
  - by rewrite Hdrain.
Qed.
End Undersized.

(** X13.  [BackTracking] does not compare the matrix with the sequences:
    on a matrix populated for the first [r] symbols of [seq1] and the first
    [c] of [seq2], it raises nothing and returns the alignment and the
    score of those two prefixes; the symbols after them are never read. *)
Theorem BackTracking_undersized (seq1 seq2 : pystr) (r c : nat) (m : ndarray) :
  (r <= length seq1)%nat -> (c <= length seq2)%nat ->
  populated (take r seq1) (take c seq2) m ->
  exists (a1 a2 : pystr) (score : Z),
    BackTracking_alignment m seq1 seq2 = Ok (a1, a2) /\
    gapped (take r seq1) a1 /\ gapped (take c seq2) a2 /\
    getitem m (-1) (-1) = Ok (PyInt score) /\
    BackTracking m seq1 seq2 = Ok (render a1 a2 (PyInt score)) /\
    BackTracking m seq1 seq2 = BackTracking m (take r seq1) (take c seq2).
Proof.
  intros Hr Hc Hp.
  destruct (BackTracking_alignment_populated _ _ m Hp)
    as (a1 & a2 & Ha & _ & Hg1 & Hg2).
  pose proof (populated_last _ _ m Hp) as Hs.
  pose proof Hp as [(H0 & H1 & _) _].
  rewrite length_take_le in H0, H1 by done.
  pose proof (BackTracking_alignment_take seq1 seq2 r c Hr Hc m a1 a2 H0 H1 Ha)
    as Ha'.
  eexists a1, a2, _. split; [done|]. split; [done|]. split; [done|].
  split; [exact Hs|]. unfold BackTracking. rewrite Ha, Ha', Hs. by split.
Qed.

(** X13 on "ACGT" and "AGGT" with the matrix populated for "AC" and "AG". *)
Lemma BackTracking_undersized_witness :
  let seq1 := list_ascii_of_string "ACGT" in
  let seq2 := list_ascii_of_string "AGGT" in
  let m := mk_ndarray 3 3
             [PyInt 0; PyInt (-2); PyInt (-4);
              PyInt (-2); PyInt 1; PyInt (-1);
              PyInt (-4); PyInt (-1); PyInt 0] in
  populate 3 3 (take 2 seq1) (take 2 seq2) (np_full 3 3 PyNone) = Ok m /\
  BackTracking m seq1 seq2 = Ok (list_ascii_of_string "AC AG 0").
Proof.
  intros seq1 seq2 m.
  assert (Hm : populate 3 3 (take 2 seq1) (take 2 seq2) (np_full 3 3 PyNone)
               = Ok m) by reflexivity.
  split; [exact Hm|].
  assert (Hp : populated (take 2 seq1) (take 2 seq2) m).
  { destruct (populate_populated (take 2 seq1) (take 2 seq2)
                (np_full 3 3 PyNone)) as (m' & Hm' & Hp').
    - repeat split; reflexivity.
    - assert (Hmm : Ok m' = Ok m) by (rewrite <- Hm'; exact Hm).
      injection Hmm as <-. exact Hp'. }
  destruct (BackTracking_undersized seq1 seq2 2 2 m) as (_ & _ & _ & _ & _ & _ & _ & _ & Heq);
    [simpl; lia | simpl; lia | exact Hp |].
  rewrite Heq. reflexivity.
Defined.

(** ** The outcome of the population loops *)

(** X14.  On any matrix, whatever it holds, the population loops called
    with the row and column counts of the two sequences either succeed or
    raise [IndexError]; a [None] cell is never read, because every cell is
    written before a later iteration reads it.  They succeed exactly when
    the matrix has at least [len1 + 1] rows and [len2 + 1] columns, keep
    its shape and leave the recurrence in its upper left block. *)
Theorem populate_outcome (seq1 seq2 : pystr) (matx : ndarray) :
  well_formed matx ->
  ((length seq1 < shape0 matx)%nat /\ (length seq2 < shape1 matx)%nat ->
   exists m : ndarray,
     populate (Z.of_nat (S (length seq1))) (Z.of_nat (S (length seq2)))
       seq1 seq2 matx = Ok m /\
     shape0 m = shape0 matx /\ shape1 m = shape1 matx /\ well_formed m /\
     forall i j : nat, (i <= length seq1)%nat -> (j <= length seq2)%nat ->
       getitem m (Z.of_nat i) (Z.of_nat j) = Ok (PyInt (nw seq1 seq2 i j))) /\
  (~ ((length seq1 < shape0 matx)%nat /\ (length seq2 < shape1 matx)%nat) ->
   populate (Z.of_nat (S (length seq1))) (Z.of_nat (S (length seq2)))
     seq1 seq2 matx = Raise IndexError).
Proof.
  intros Hwf. split.
  - intros [HR HC].
    destruct (populate_large seq1 seq2 (shape0 matx) (shape1 matx) matx)
      as (m & Hm & Hblock); try done.
    exists m. split; [done|]. pose proof Hblock as (H0 & H1 & Hwf' & _).
    repeat split; try done.
    intros i j Hi Hj.
    apply (block_read seq1 seq2 (shape0 matx) (shape1 matx)
             (S (length seq1)) 0 i j m Hblock); lia.
  - intros Hsmall.
    apply (populate_small seq1 seq2 (shape0 matx) (shape1 matx)); try done.
    lia.
Qed.

(** X14 on "AC" against "AG" with a 4x5 matrix and a 3x2 matrix. *)
Lemma populate_outcome_witness :
  let seq1 := list_ascii_of_string "AC" in
  let seq2 := list_ascii_of_string "AG" in
  well_formed (np_full 4 5 PyNone) /\ well_formed (np_full 3 2 PyNone) /\
  (exists m : ndarray,
     populate 3 3 seq1 seq2 (np_full 4 5 PyNone) = Ok m /\
     getitem m 2 2 = Ok (PyInt (nw seq1 seq2 2 2))) /\
  populate 3 3 seq1 seq2 (np_full 3 2 PyNone) = Raise IndexError.
Proof.
  intros seq1 seq2.
  assert (Hw1 : well_formed (np_full 4 5 PyNone)) by reflexivity.
  assert (Hw2 : well_formed (np_full 3 2 PyNone)) by reflexivity.
  split; [exact Hw1|]. split; [exact Hw2|]. split.
  - destruct (proj1 (populate_outcome seq1 seq2 _ Hw1))
      as (m & Hm & _ & _ & _ & Hcells); [simpl; lia|].
    exists m. split; [exact Hm|]. apply (Hcells 2%nat 2%nat); simpl; lia.
  - apply (proj2 (populate_outcome seq1 seq2 _ Hw2)). simpl. lia.
Defined.
